(** * react-prod-sourcemaps: the rewrite entry point and its helpers

    A shallow embedding of the module that exports
    [maybeRewriteSourcemapWithReactProd] (validation guard, loader, version
    matcher, rewrite entry point).  Values that the program receives as
    [any] are JavaScript values; values it handles at a TypeScript type are
    records.  What the program imports from other packages (URI resolution,
    SHA-256, the file system, JSON parsing, the composition of mappings) is
    a variable of the section [Program]; the registry of [reactVersions.mjs]
    is a variable too.  Of [remapping] the embedding has the part that calls
    back into the program: the walk over the sources, which calls the loader
    and lets its exceptions through. *)

From Stdlib Require Import Floats Ascii.
From stdpp Require Import gmap strings list pretty.

Open Scope string_scope.
Set Warnings "-register-all".

(** ** JavaScript values *)

Inductive JSValue :=
| JUndefined
| JNull
| JBool (b : bool)
| JNumber (n : float)
| JString (s : string)
| JArray (elems : list JSValue)
| JObject (props : list (string * JSValue)).

(** [typeof v] *)
Definition typeof (v : JSValue) : string :=
  match v with
  | JUndefined => "undefined"
  | JNull | JArray _ | JObject _ => "object"
  | JBool _ => "boolean"
  | JNumber _ => "number"
  | JString _ => "string"
  end.

(** Own property of an object literal: the first binding of the key. *)
Fixpoint assoc (k : string) (props : list (string * JSValue)) : option JSValue :=
  match props with
  | [] => None
  | (k', v) :: rest => if String.eqb k k' then Some v else assoc k rest
  end.

(** [v.k] for a key that is neither an array index nor [length]; reading a
    key that is not there gives [undefined]. *)
Definition get (v : JSValue) (k : string) : JSValue :=
  match v with
  | JObject props => default JUndefined (assoc k props)
  | _ => JUndefined
  end.

(** [k in v], on a value for which [typeof v === "object"] and [v !== null].
    An array has its indices and [length]; keys inherited from the
    prototypes are left out. *)
Definition js_in (k : string) (v : JSValue) : bool :=
  match v with
  | JObject props => bool_decide (is_Some (assoc k props))
  | JArray elems =>
      String.eqb k "length" ||
      existsb (fun i => String.eqb k (pretty i)) (seq 0 (length elems))
  | _ => false
  end.

(** [v === n] for a number literal [n]. *)
Definition strict_eq_number (v : JSValue) (n : float) : bool :=
  match v with
  | JNumber m => PrimFloat.eqb m n
  | _ => false
  end.

Definition is_null (v : JSValue) : bool :=
  match v with JNull => true | _ => false end.

(** [!s] on a string: the empty string is falsy. *)
Definition truthy (s : string) : bool :=
  negb (String.eqb s "").

(** [s.endsWith(suffix)] *)
Definition endsWith (s suffix : string) : bool :=
  let n := String.length s in
  let k := String.length suffix in
  (k <=? n)%nat && String.eqb (String.substring (n - k) k s) suffix.

(** ** The validation guard *)

Definition isSourceMapV3 (map : JSValue) : bool :=
  String.eqb (typeof map) "object" &&
  negb (is_null map) &&
  strict_eq_number (get map "version") 3%float &&
  js_in "names" map &&
  js_in "sources" map.

(** ** The TypeScript interface [SourceMapV3]

    [version] has the literal type [3] and so carries no information.
    [mappings] is the field that [SourceMapInput] adds; the program never
    reads it and hands it to the composition library as it is. *)

Record SourceMapV3 := {
  file : option string;
  names : list string;
  sourceRoot : option string;
  sources : list (option string);
  sourcesContent : option (list (option string));
  mappings : JSValue;
}.

Definition of_string (s : string) : JSValue := JString s.

Definition of_nullable (o : option string) : JSValue :=
  match o with Some s => JString s | None => JNull end.

Definition optional (k : string) (o : option JSValue) : list (string * JSValue) :=
  match o with Some v => [(k, v)] | None => [] end.

(** A document of the interface as the value it is at run time. *)
Definition toJS (m : SourceMapV3) : JSValue :=
  JObject
    ([("version", JNumber 3%float)]
     ++ optional "file" (of_string <$> file m)
     ++ [("names", JArray (of_string <$> names m))]
     ++ optional "sourceRoot" (of_string <$> sourceRoot m)
     ++ [("sources", JArray (of_nullable <$> sources m))]
     ++ optional "sourcesContent"
          ((fun l => JArray (of_nullable <$> l)) <$> sourcesContent m)
     ++ [("mappings", mappings m)]).

Definition as_string (v : JSValue) : option string :=
  match v with JString s => Some s | _ => None end.

Definition as_nullable (v : JSValue) : option (option string) :=
  match v with
  | JString s => Some (Some s)
  | JNull => Some None
  | _ => None
  end.

Definition as_array {A} (f : JSValue -> option A) (v : JSValue) : option (list A) :=
  match v with
  | JArray elems => mapM f elems
  | _ => None
  end.

(** An optional field: absent (or [undefined]) is fine, anything else has
    to have the field's type. *)
Definition as_optional {A} (f : JSValue -> option A) (v : JSValue) : option (option A) :=
  match v with
  | JUndefined => Some None
  | _ => Some <$> f v
  end.

(** The values that inhabit the interface: those for which the TypeScript
    types of the program tell the truth. *)
Definition asSourceMapV3 (v : JSValue) : option SourceMapV3 :=
  if negb (isSourceMapV3 v) then None else
  f ← match get v "file" with
      | JUndefined | JNull => Some None
      | w => Some <$> as_string w
      end;
  n ← as_array as_string (get v "names");
  r ← as_optional as_string (get v "sourceRoot");
  s ← as_array as_nullable (get v "sources");
  c ← as_optional (as_array as_nullable) (get v "sourcesContent");
  (if js_in "mappings" v then Some () else None);;
  Some {| file := f; names := n; sourceRoot := r; sources := s;
          sourcesContent := c; mappings := get v "mappings" |}.

(** [!v] on an arbitrary value *)
Definition js_falsy (v : JSValue) : bool :=
  match v with
  | JUndefined | JNull => true
  | JBool b => negb b
  | JNumber n => PrimFloat.eqb n 0%float || negb (PrimFloat.eqb n n)
  | JString s => negb (truthy s)
  | JArray _ | JObject _ => false
  end.

(** ** Errors, completions and the state of a call *)

Inductive JSError :=
| Error (message : string)
| SyntaxError.

(** How a call to a function that touches no state ends. *)
Inductive Completion (A : Type) :=
| Normal (a : A)
| Throw (e : JSError).
Arguments Normal {A} a.
Arguments Throw {A} e.

(** An entry of [reactVersions.mjs]. *)
Record ReactVersion := {
  version : string;
  package : string;
  filename : string;
}.

(** The context object that the composition library passes to its loader
    callback; [content] and [ignore] start out [undefined] and the loader
    of this program never assigns them. *)
Record LoaderContext := {
  importer : string;
  depth : nat;
  source : string;
}.

(** One argument of a call to [console.log]. *)
Inductive LogArg :=
| LStr (s : string)
| LCtx (ctx : LoaderContext)
| LStrs (l : list string).

(** What a call can change: the array [reactVersions] of the running
    invocation of the entry point, and the console. *)
Record World := {
  reactVersions : list ReactVersion;
  console : list (list LogArg);
}.

(** A computation: its completion and the world it leaves, or [None] when
    this development has no outcome for it: the bound on the depth of the
    walk is used up, or a value outside the interface has reached code
    whose behaviour on it the types do not describe ([undescribed]). *)
Definition M (A : Type) : Type := World -> option (Completion A * World).

#[export] Instance M_ret : MRet M := fun A a w => Some (Normal a, w).

#[export] Instance M_bind : MBind M := fun A B f m w =>
  match m w with
  | Some (Normal a, w') => f a w'
  | Some (Throw e, w') => Some (Throw e, w')
  | None => None
  end.

#[export] Instance M_fmap : FMap M := fun A B f m => a ← m; mret (f a).

Definition throw {A} (e : JSError) : M A := fun w => Some (Throw e, w).

Definition lift {A} (c : Completion A) : M A := fun w => Some (c, w).

(** No outcome.  The guard of the program looks at the keys of a document
    and not at what they hold, and neither the program nor the composition
    library checks a shape afterwards: what they make of a value outside
    the interface follows from how each operation treats values that its
    types exclude, and nothing is stated about it here. *)
Definition undescribed {A} : M A := fun _ => None.

Definition log (args : list LogArg) : M unit := fun w =>
  Some (Normal (), {| reactVersions := reactVersions w; console := console w ++ [args] |}).

(** [reactVersions.push(v)] *)
Definition push (v : ReactVersion) : M unit := fun w =>
  Some (Normal (), {| reactVersions := reactVersions w ++ [v]; console := console w |}).

(** [const reactVersions = []] *)
Definition fresh_reactVersions : M unit := fun w =>
  Some (Normal (), {| reactVersions := []; console := console w |}).

Definition read_reactVersions : M (list ReactVersion) := fun w =>
  Some (Normal (reactVersions w), w).

Definition when (b : bool) (m : M unit) : M unit := if b then m else mret ().

(** [{ verbose?: boolean }] *)
Record Options := { verbose : option bool }.

Definition verbose_on (options : Options) : bool := default false (verbose options).

Definition default_options : Options := {| verbose := Some false |}.

(** ** Arrays *)

Fixpoint findIndex_from {A} (p : A -> bool) (l : list A) (i : Z) : Z :=
  match l with
  | [] => (-1)%Z
  | x :: rest => if p x then i else findIndex_from p rest (i + 1)%Z
  end.

(** [l.findIndex(p)] *)
Definition findIndex {A} (p : A -> bool) (l : list A) : Z := findIndex_from p l 0.

(** [l.indexOf(s)] on an array of strings and nulls, for a string [s] *)
Definition indexOf (l : list (option string)) (s : string) : Z :=
  findIndex (fun x => bool_decide (x = Some s)) l.

(** [l?.[i]]: [None] stands for both [undefined] and [null]. *)
Definition at_index (l : option (list (option string))) (i : Z) : option string :=
  match l with
  | Some l => if (i <? 0)%Z then None else mjoin (l !! Z.to_nat i)
  | None => None
  end.

(** ** The pattern [SUPPORTED_PACKAGES]

    [/(react-dom\.profiling\.min\.js|react-dom\.production\.min\.js)/]: one
    group of two literal alternatives. *)
Definition SUPPORTED_PACKAGES : list string :=
  ["react-dom.profiling.min.js"; "react-dom.production.min.js"].

(** The first alternative that matches at the start of [s]. *)
Definition match_here (alternatives : list string) (s : string) : option string :=
  List.find (fun a => String.prefix a s) alternatives.

(** [re.exec(s)] for a pattern that is one group of literal alternatives:
    the leftmost match, as the array of the match and of its group; [None]
    for [null]. *)
Fixpoint regexp_exec (alternatives : list string) (s : string) : option (list string) :=
  match match_here alternatives s with
  | Some m => Some [m; m]
  | None =>
      match s with
      | EmptyString => None
      | String _ rest => regexp_exec alternatives rest
      end
  end.

(** An array in a template literal: its elements joined by commas. *)
Definition join_comma (l : list string) : string :=
  match l with
  | [] => ""
  | x :: rest => fold_left (fun acc y => acc +:+ "," +:+ y) rest x
  end.

(** [path.slice(0, path.lastIndexOf("/") + 1)], the [stripFilename] of the
    mapping library *)
Fixpoint stripFilename (path : string) : string :=
  match path with
  | EmptyString => EmptyString
  | String c rest =>
      let r := stripFilename rest in
      if Ascii.eqb c "/"%char then String c r
      else match r with EmptyString => EmptyString | _ => String c r end
  end.

(** A map as the mapping library holds it: the document and the names of
    its sources, resolved. *)
Record TraceMap := {
  document : SourceMapV3;
  resolvedSources : list string;
}.

(** The tree of sources that the composition library builds: a source for
    which the loader gave no map is a leaf with its name and content. *)
Inductive Sources :=
| OriginalSource (source : string) (content : option string)
| MapSource (map : TraceMap) (children : list Sources).

(** [RewriteSourcemapResult] *)
Record RewriteSourcemapResult := {
  outputSourcemap : SourceMapV3;
  rewroteSourcemap : bool;
  reactVersion : option ReactVersion;
}.

(** ** The program *)

Section Program.

(** [@jridgewell/resolve-uri] *)
Variable resolveUri : string -> option string -> string.

(** [createHash("sha256").update(data).digest("hex")] *)
Variable sha256_hex : string -> string.

(** The table of [reactVersions.mjs], keyed by content hash. *)
Variable hashesToSourcemapDescriptors : gmap string ReactVersion.

(** The files on disk, by path, and [JSON.parse] ([None]: a syntax
    error). *)
Variable fs : gmap string string.
Variable JSON_parse : string -> option JSValue.

(** [path.join] and [__dirname] *)
Variable path_join : list string -> string.
Variable __dirname : string.

(** The second half of [remapping]: [traceMappings] over the tree of
    sources and the construction of the resulting document. *)
Variable traceMappings : Sources -> SourceMapV3.

Definition resolve (input : string) (base : option string) : string :=
  let base :=
    match base with
    | Some b => if truthy b && negb (endsWith b "/") then Some (b +:+ "/") else Some b
    | None => None
    end in
  resolveUri input base.

Definition hashSHA256 (data : string) : string := sha256_hex data.

Definition loadSourcemap (filePath : string) : Completion JSValue :=
  match fs !! filePath with
  | None => Throw (Error ("Cannot find " +:+ filePath))
  | Some text =>
      match JSON_parse text with
      | None => Throw SyntaxError
      | Some maybeSourcemap =>
          if negb (isSourceMapV3 maybeSourcemap)
          then Throw (Error ("Invalid sourcemap: " +:+ filePath))
          else Normal maybeSourcemap
      end
  end.

Definition loadExistingSourcemap (versionEntry : ReactVersion) (options : Options)
  : M JSValue :=
  let filename := filename versionEntry +:+ ".map" in
  let filePath :=
    path_join [__dirname; "../assets"; package versionEntry; version versionEntry; filename] in
  when (verbose_on options) (log [LStr "Loading sourcemap from: "; LStr filePath]);;
  lift (loadSourcemap filePath).

(** The two passes over the source list that fix [filenameIndex], the
    first lines of [findMatchingReactDOMVersion]. *)
Definition filenameIndex (reactDomFilename : string) (inputSourcemap : SourceMapV3) : Z :=
  let filenameIndex := indexOf (sources inputSourcemap) reactDomFilename in
  if (filenameIndex =? -1)%Z then
    findIndex (fun filename =>
      match filename with
      | None => false
      | Some filename =>
          if negb (truthy filename) then false else
          let normalizedPath := resolve filename (Some "") in
          String.eqb normalizedPath reactDomFilename
      end) (sources inputSourcemap)
  else filenameIndex.

Definition findMatchingReactDOMVersion (reactDomFilename : string)
    (inputSourcemap : SourceMapV3) : Completion ReactVersion :=
  let filenameIndex := filenameIndex reactDomFilename inputSourcemap in
  if (filenameIndex =? -1)%Z then
    Throw (Error ("Cannot find '" +:+ reactDomFilename +:+ "' in input sourcemap"))
  else
  let sourceContents := at_index (sourcesContent inputSourcemap) filenameIndex in
  match sourceContents with
  | None => Throw (Error ("Cannot find source contents for '" +:+ reactDomFilename +:+ "'"))
  | Some sourceContents =>
      if negb (truthy sourceContents) then
        Throw (Error ("Cannot find source contents for '" +:+ reactDomFilename +:+ "'"))
      else
      let contentHash := hashSHA256 sourceContents in
      match hashesToSourcemapDescriptors !! contentHash with
      | None => Throw (Error ("Cannot find version for '" +:+ reactDomFilename +:+ "'"))
      | Some versionEntry => Normal versionEntry
      end
  end.

(** *** The composition library, as far as it calls back into the program

    [new TraceMap(map, mapUrl)]: the names of the sources are resolved
    against the source root, itself resolved against the directory of the
    map.  The constructor checks no shapes; it is described for the
    documents of the interface only. *)
Definition new_TraceMap (map : JSValue) (mapUrl : string) : M TraceMap :=
  match asSourceMapV3 map with
  | None => undescribed
  | Some m =>
      let from := resolve (default "" (sourceRoot m)) (Some (stripFilename mapUrl)) in
      mret {| document := m;
              resolvedSources := (fun s => resolve (default "" s) (Some from)) <$> sources m |}
  end.

(** [build]: the loader is called once for every source of the map, in
    the order of the source list, with the resolved name; a map that it
    returns is walked in turn before the next source, and a source
    without one becomes a leaf.  Nothing catches what the loader
    throws.  [fuel] bounds the nesting of maps. *)
Fixpoint build (fuel : nat) (loader : string -> LoaderContext -> M (option JSValue))
    (map : TraceMap) (importer : string) (importerDepth : nat) : M Sources :=
  match fuel with
  | O => fun _ => None
  | S fuel =>
      let depth := importerDepth + 1 in
      children ← mapM (fun '(i, sourceFile) =>
        let ctx := {| importer := importer; depth := depth; source := sourceFile |} in
        sourceMap ← loader (source ctx) ctx;
        match sourceMap with
        | Some sourceMap =>
            tm ← new_TraceMap sourceMap (source ctx);
            build fuel loader tm (source ctx) depth
        | None =>
            mret (OriginalSource (source ctx)
                    (at_index (sourcesContent (document map)) (Z.of_nat i)))
        end) (imap pair (resolvedSources map));
      mret (MapSource map children)
  end.

(** [remapping(input, loader)] for a single input map *)
Definition remapping (fuel : nat) (input : JSValue)
    (loader : string -> LoaderContext -> M (option JSValue)) : M SourceMapV3 :=
  map ← new_TraceMap input "";
  tree ← build fuel loader map "" 0;
  mret (traceMappings tree).

(** *** The rewrite entry point *)

(** The callback that the entry point hands to [remapping].  The matcher
    reads [inputSourcemap] at the interface, and is described for the
    documents of the interface only, as the walk before it
    ([new_TraceMap]).  The branch for a null [versionEntry] is the one of
    the program: the matcher never returns null. *)
Definition loader (inputSourcemap : JSValue) (options : Options)
    (file : string) (ctx : LoaderContext) : M (option JSValue) :=
  let matchedPackage := regexp_exec SUPPORTED_PACKAGES (source ctx) in
  match matchedPackage with
  | None =>
      when (verbose_on options)
        (log [LStr ("Skipping sourcemap " +:+ file +:+
                    " because it does not contain a sourcemap for remapping")]);;
      mret None
  | Some matchedPackage =>
      when (verbose_on options)
        (log [LStr ("Found " +:+ join_comma matchedPackage +:+ " in file:"); LCtx ctx]);;
      versionEntry ←
        match asSourceMapV3 inputSourcemap with
        | Some m => Some <$> lift (findMatchingReactDOMVersion file m)
        | None => undescribed
        end;
      match versionEntry with
      | None =>
          when (verbose_on options)
            (log [LStr ("Could not resolve sourcemaps for " +:+ join_comma matchedPackage +:+
                        " version. Please file an issue with react-prod-sourcemaps.")]);;
          mret None
      | Some versionEntry =>
          push versionEntry;;
          when (verbose_on options)
            (log [LStr ("Found matching version for " +:+ default "" (head matchedPackage) +:+ ":");
                  LStr (version versionEntry)]);;
          sourcemap ← loadExistingSourcemap versionEntry default_options;
          if js_falsy sourcemap || negb (isSourceMapV3 sourcemap) then
            throw (Error ("Failed to load expected sourcemap for " +:+
                          default "" (head matchedPackage) +:+ " version " +:+
                          version versionEntry))
          else mret (Some sourcemap)
      end
  end.

Definition maybeRewriteSourcemapWithReactProd (fuel : nat) (inputSourcemap : JSValue)
    (options : Options) : M RewriteSourcemapResult :=
  let isValidSourcemap := isSourceMapV3 inputSourcemap in
  if negb isValidSourcemap then throw (Error "Invalid sourcemap") else
  fresh_reactVersions;;
  remapped ← remapping fuel inputSourcemap (loader inputSourcemap options);
  reactVersions ← read_reactVersions;
  when ((1 <? length reactVersions)%nat && verbose_on options)
    (log [LStr "Found multiple React versions:"; LStrs (version <$> reactVersions)]);;
  mret {| outputSourcemap := remapped;
          rewroteSourcemap := (0 <? length reactVersions)%nat;
          reactVersion := head reactVersions |}.

End Program.

(** The names of the leaves of a tree of sources, left to right. *)
Fixpoint leaf_names (t : Sources) : list string :=
  match t with
  | OriginalSource source _ => [source]
  | MapSource _ children => flat_map leaf_names children
  end.

(** ** A small environment to run the program in

    Stand-ins for what the program imports, enough to evaluate it on
    concrete documents: a resolver that joins the base and the input and
    drops the [.] segments of the path, a tagging function in place of the
    hash, a registry with one release and the disk with its map. *)
Module Sample.

(** The three characters [/./] *)
Definition dot_segment (c d e : ascii) : bool :=
  Ascii.eqb c "/" && Ascii.eqb d "." && Ascii.eqb e "/".

Fixpoint remove_dot_segments (s : string) : string :=
  match s with
  | String c rest =>
      match rest with
      | String d ((String e _) as rest') =>
          if dot_segment c d e then remove_dot_segments rest'
          else String c (remove_dot_segments rest)
      | _ => String c (remove_dot_segments rest)
      end
  | EmptyString => EmptyString
  end.

Definition resolveUri (input : string) (base : option string) : string :=
  remove_dot_segments (default "" base +:+ input).

Definition sha256_hex (data : string) : string := "sha256:" +:+ data.

Definition react_dom_18_2_0 : ReactVersion :=
  {| version := "18.2.0"; package := "react-dom";
     filename := "react-dom.production.min.js" |}.

Definition minified : string := "/* react-dom 18.2.0 production.min.js */".

Definition hashesToSourcemapDescriptors : gmap string ReactVersion :=
  {[ sha256_hex minified := react_dom_18_2_0 ]}.

Definition path_join (parts : list string) : string :=
  match parts with
  | [] => "."
  | x :: rest => fold_left (fun acc y => acc +:+ "/" +:+ y) rest x
  end.

Definition dirname : string := "/pkg/lib".

(** The map recorded for the release. *)
Definition recorded : SourceMapV3 :=
  {| file := Some "react-dom.production.min.js";
     names := [];
     sourceRoot := None;
     sources := [Some "react-dom.production.js"];
     sourcesContent := None;
     mappings := JString "AAAA" |}.

Definition recorded_path : string :=
  path_join [dirname; "../assets"; "react-dom"; "18.2.0"; "react-dom.production.min.js.map"].

Definition fs : gmap string string := {[ recorded_path := "<recorded>" ]}.

(** A disk on which the recorded map is missing. *)
Definition fs_without : gmap string string := ∅.

Definition JSON_parse (text : string) : option JSValue :=
  if String.eqb text "<recorded>" then Some (toJS recorded)
  else if String.eqb text "<shapeless>" then
    Some (JObject [("version", JNumber 3%float); ("names", JNumber 0%float);
                   ("sources", JString "x")])
  else None.

(** A composition that keeps the names of the leaves it reaches. *)
Definition traceMappings (tree : Sources) : SourceMapV3 :=
  {| file := None; names := []; sourceRoot := None;
     sources := Some <$> leaf_names tree;
     sourcesContent := None;
     mappings := JString "" |}.

Definition world0 : World := {| reactVersions := []; console := [] |}.

Definition run (fs : gmap string string) (fuel : nat) (input : JSValue) (options : Options)
  : option (Completion RewriteSourcemapResult * World) :=
  maybeRewriteSourcemapWithReactProd resolveUri sha256_hex hashesToSourcemapDescriptors
    fs JSON_parse path_join dirname traceMappings fuel input options world0.

Definition bundle (sourceRoot : option string) (sources : list (option string))
    (sourcesContent : list (option string)) : SourceMapV3 :=
  {| file := Some "index.js"; names := []; sourceRoot := sourceRoot;
     sources := sources; sourcesContent := Some sourcesContent;
     mappings := JString "AAAA" |}.

End Sample.

(** * Properties *)

(** ** Searching an array *)

Lemma findIndex_from_first {A} (p : A -> bool) (l : list A) (k : Z) (n : nat) (x : A) :
  l !! n = Some x -> p x = true ->
  (forall j y, (j < n)%nat -> l !! j = Some y -> p y = false) ->
  findIndex_from p l k = (k + Z.of_nat n)%Z.
Proof.
  revert k n. induction l as [|a l IH]; intros k n Hn Hp Hbefore; [done|].
  destruct n as [|n]; simpl in *.
  - injection Hn as ->. rewrite Hp. lia.
  - rewrite (Hbefore 0%nat a) by (done || lia).
    rewrite (IH (k + 1)%Z n); [lia|done..|].
    intros j y Hj Hy. apply (Hbefore (S j) y); [lia|done].
Qed.

Lemma findIndex_from_none {A} (p : A -> bool) (l : list A) (k : Z) :
  (forall j y, l !! j = Some y -> p y = false) ->
  findIndex_from p l k = (-1)%Z.
Proof.
  revert k. induction l as [|a l IH]; intros k H; [done|]. simpl.
  rewrite (H 0%nat a) by done. apply IH. intros j y. apply (H (S j)).
Qed.

Lemma findIndex_from_inv {A} (p : A -> bool) (l : list A) (k : Z) :
  (0 <= k)%Z ->
  (findIndex_from p l k = (-1)%Z /\ forall j y, l !! j = Some y -> p y = false) \/
  (exists n x, findIndex_from p l k = (k + Z.of_nat n)%Z /\ l !! n = Some x /\ p x = true /\
     forall j y, (j < n)%nat -> l !! j = Some y -> p y = false).
Proof.
  revert k. induction l as [|a l IH]; intros k Hk.
  - left. split; [done|]. intros j y Hy. by rewrite lookup_nil in Hy.
  - simpl. destruct (p a) eqn:Hp.
    + right. exists 0%nat, a. repeat split; [lia|done|]. intros j y Hj. lia.
    + destruct (IH (k + 1)%Z ltac:(lia)) as [[Hr Hall]|(n & x & Hr & Hn & Hx & Hbefore)].
      * left. split; [done|]. intros [|j] y Hy; simpl in Hy; [congruence|eauto].
      * right. exists (S n), x. repeat split; [lia|done..|].
        intros [|j] y Hj Hy; simpl in Hy; [congruence|]. apply (Hbefore j); [lia|done].
Qed.

Lemma findIndex_inv {A} (p : A -> bool) (l : list A) :
  (findIndex p l = (-1)%Z /\ forall j y, l !! j = Some y -> p y = false) \/
  (exists n x, findIndex p l = Z.of_nat n /\ l !! n = Some x /\ p x = true /\
     forall j y, (j < n)%nat -> l !! j = Some y -> p y = false).
Proof.
  destruct (findIndex_from_inv p l 0 ltac:(lia)) as [H|(n & x & Hr & H)]; [by left|].
  right. exists n, x. split; [|done]. unfold findIndex. rewrite Hr. lia.
Qed.

Lemma findIndex_first {A} (p : A -> bool) (l : list A) (n : nat) (x : A) :
  l !! n = Some x -> p x = true ->
  (forall j y, (j < n)%nat -> l !! j = Some y -> p y = false) ->
  findIndex p l = Z.of_nat n.
Proof. intros. unfold findIndex. by rewrite (findIndex_from_first p l 0 n x). Qed.

Lemma indexOf_first (l : list (option string)) (s : string) (n : nat) :
  l !! n = Some (Some s) ->
  (forall j, (j < n)%nat -> l !! j <> Some (Some s)) ->
  indexOf l s = Z.of_nat n.
Proof.
  intros Hn Hbefore. apply (findIndex_first _ l n (Some s)); [done|by apply bool_decide_eq_true|].
  intros j y Hj Hy. apply bool_decide_eq_false. intros ->. by apply (Hbefore j).
Qed.

Lemma indexOf_none (l : list (option string)) (s : string) :
  indexOf l s = (-1)%Z <-> Some s ∉ l.
Proof.
  unfold indexOf. split.
  - intros Hr Hin. apply list_elem_of_lookup in Hin as [n Hn].
    destruct (findIndex_inv (fun x => bool_decide (x = Some s)) l)
      as [[_ Hall]|(k & x & Hk & _)]; [|lia].
    specialize (Hall n _ Hn). by apply bool_decide_eq_false in Hall.
  - intros Hnot. apply findIndex_from_none. intros j y Hy.
    apply bool_decide_eq_false. intros ->. apply Hnot. apply list_elem_of_lookup. eauto.
Qed.

(** ** The version matcher *)

Section Matcher.

Context (resolveUri : string -> option string -> string)
        (sha256_hex : string -> string)
        (registry : gmap string ReactVersion).

Local Abbreviation matcher := (findMatchingReactDOMVersion resolveUri sha256_hex registry).
Local Abbreviation index := (filenameIndex resolveUri).

(** The entry [e] of a source list is taken for [candidate] by the second
    pass: it is a non-empty string whose normal form is the candidate. *)
Definition normalizes_to (e candidate : string) : Prop :=
  e <> "" /\ resolve resolveUri e (Some "") = candidate.

(** The test of the second pass. *)
Definition second_pass (candidate : string) (filename : option string) : bool :=
  match filename with
  | None => false
  | Some filename =>
      if negb (truthy filename) then false
      else String.eqb (resolve resolveUri filename (Some "")) candidate
  end.

Lemma truthy_true (s : string) : truthy s = true <-> s <> "".
Proof.
  unfold truthy. rewrite negb_true_iff. split.
  - intros H ->. by rewrite String.eqb_refl in H.
  - intros H. by apply String.eqb_neq.
Qed.

Lemma second_pass_true (candidate e : string) :
  second_pass candidate (Some e) = true <-> normalizes_to e candidate.
Proof.
  unfold second_pass, normalizes_to. destruct (truthy e) eqn:Ht; simpl.
  - rewrite String.eqb_eq. apply truthy_true in Ht. tauto.
  - split; [done|]. intros [Hne _]. apply truthy_true in Hne. congruence.
Qed.

Lemma filenameIndex_unfold (candidate : string) (m : SourceMapV3) :
  index candidate m =
    if (indexOf (sources m) candidate =? -1)%Z
    then findIndex (second_pass candidate) (sources m)
    else indexOf (sources m) candidate.
Proof. reflexivity. Qed.

Lemma indexOf_found (l : list (option string)) (s : string) :
  Some s ∈ l -> exists n, indexOf l s = Z.of_nat n /\ l !! n = Some (Some s) /\
    forall j, (j < n)%nat -> l !! j <> Some (Some s).
Proof.
  intros Hin. unfold indexOf.
  destruct (findIndex_inv (fun x => bool_decide (x = Some s)) l)
    as [[Hr _]|(n & x & Hr & Hn & Hx & Hbefore)].
  - by apply indexOf_none in Hr.
  - apply bool_decide_eq_true in Hx as ->. exists n. repeat split; [done..|].
    intros j Hj Hy. specialize (Hbefore j _ Hj Hy). by apply bool_decide_eq_false in Hbefore.
Qed.

Lemma filenameIndex_exact (candidate : string) (m : SourceMapV3) :
  Some candidate ∈ sources m ->
  index candidate m = indexOf (sources m) candidate /\ index candidate m <> (-1)%Z.
Proof.
  intros Hin. rewrite filenameIndex_unfold.
  destruct (indexOf_found _ _ Hin) as (n & Hn & _). rewrite Hn.
  destruct (Z.eqb_spec (Z.of_nat n) (-1)); [lia|]. split; [done|lia].
Qed.

Lemma filenameIndex_fallback (candidate : string) (m : SourceMapV3) :
  Some candidate ∉ sources m ->
  index candidate m = findIndex (second_pass candidate) (sources m).
Proof.
  intros Hnot. rewrite filenameIndex_unfold.
  apply indexOf_none in Hnot as ->. by rewrite Z.eqb_refl.
Qed.

Lemma filenameIndex_normalized (candidate e : string) (m : SourceMapV3) :
  Some e ∈ sources m -> normalizes_to e candidate -> index candidate m <> (-1)%Z.
Proof.
  intros Hin Hnorm. destruct (decide (Some candidate ∈ sources m)) as [Hex|Hex].
  - by apply filenameIndex_exact.
  - rewrite filenameIndex_fallback by done.
    destruct (findIndex_inv (second_pass candidate) (sources m))
      as [[_ Hall]|(n & x & -> & _)]; [|lia].
    apply list_elem_of_lookup in Hin as [n Hn]. specialize (Hall n _ Hn).
    apply second_pass_true in Hnorm. congruence.
Qed.

Lemma matcher_not_found (candidate : string) (m : SourceMapV3) :
  index candidate m = (-1)%Z ->
  matcher candidate m =
    Throw (Error ("Cannot find '" +:+ candidate +:+ "' in input sourcemap")).
Proof. intros H. unfold findMatchingReactDOMVersion. by rewrite H. Qed.

Lemma filenameIndex_found (candidate : string) (m : SourceMapV3) :
  index candidate m <> (-1)%Z ->
  exists e, Some e ∈ sources m /\ (e = candidate \/ normalizes_to e candidate).
Proof.
  intros Hi. destruct (decide (Some candidate ∈ sources m)) as [Hin|Hnot].
  - exists candidate. split; [done|by left].
  - rewrite filenameIndex_fallback in Hi by done.
    destruct (findIndex_inv (second_pass candidate) (sources m))
      as [[Hr _]|(n & x & _ & Hn & Hx & _)]; [done|].
    destruct x as [e|]; [|done]. exists e. split.
    + apply list_elem_of_lookup. eauto.
    + right. by apply second_pass_true.
Qed.

Lemma matcher_not_found_iff (candidate : string) (m : SourceMapV3) :
  matcher candidate m =
    Throw (Error ("Cannot find '" +:+ candidate +:+ "' in input sourcemap")) <->
  index candidate m = (-1)%Z.
Proof.
  split; [|apply matcher_not_found].
  unfold findMatchingReactDOMVersion.
  destruct (Z.eqb_spec (index candidate m) (-1)); [done|].
  destruct (at_index _ _) as [contents|]; [|intros H; vm_compute in H; discriminate H].
  destruct (negb (truthy contents)); [intros H; vm_compute in H; discriminate H|].
  destruct (registry !! _); [done|intros H; vm_compute in H; discriminate H].
Qed.

(** C5, as the program has it.  The matcher looks for the candidate in the
    source list as it is written: when it is there, its first position is
    the index, whatever the resolver does.  Only when it is not there is
    every entry normalized against the empty base and compared with the
    candidate: the index is then a position whose entry is not the
    candidate and normalizes to it, when there is such an entry.  So the
    second pass finds the entries that normalization changes; an entry
    that normalization leaves as it is and that normalizes to the
    candidate is the candidate, and the first pass finds it.  The matcher
    throws its source-not-found error exactly when both passes fail. *)
Theorem filenameIndex_two_passes (candidate : string) (m : SourceMapV3) :
  (Some candidate ∈ sources m ->
     forall resolveUri', filenameIndex resolveUri' candidate m = indexOf (sources m) candidate /\
                         indexOf (sources m) candidate <> (-1)%Z) /\
  (Some candidate ∉ sources m ->
     index candidate m = findIndex (second_pass candidate) (sources m)) /\
  (Some candidate ∉ sources m ->
   forall e, Some e ∈ sources m -> normalizes_to e candidate ->
     exists n e', index candidate m = Z.of_nat n /\
       findIndex (second_pass candidate) (sources m) = Z.of_nat n /\
       sources m !! n = Some (Some e') /\
       e' <> candidate /\ normalizes_to e' candidate) /\
  (forall e, Some e ∈ sources m -> normalizes_to e candidate ->
     resolve resolveUri e (Some "") = e ->
     candidate = e /\
     forall resolveUri', filenameIndex resolveUri' candidate m = indexOf (sources m) candidate /\
                         indexOf (sources m) candidate <> (-1)%Z) /\
  (matcher candidate m =
     Throw (Error ("Cannot find '" +:+ candidate +:+ "' in input sourcemap")) <->
   (Some candidate ∉ sources m) /\
   forall e, Some e ∈ sources m -> ~ normalizes_to e candidate).
Proof.
  assert (Some candidate ∈ sources m ->
          forall resolveUri', filenameIndex resolveUri' candidate m = indexOf (sources m) candidate /\
                              indexOf (sources m) candidate <> (-1)%Z) as Hexact.
  { intros Hin r'. unfold filenameIndex.
    destruct (indexOf_found _ _ Hin) as (n & Hn & _). rewrite Hn.
    destruct (Z.eqb_spec (Z.of_nat n) (-1)); [lia|]. split; [done|lia]. }
  split; [exact Hexact|]. split; [apply filenameIndex_fallback|]. split; [|split].
  - intros Hnot e Hin Hnorm. rewrite filenameIndex_fallback by done.
    destruct (findIndex_inv (second_pass candidate) (sources m))
      as [[_ Hall]|(n & x & Hr & Hn & Hx & _)].
    + apply list_elem_of_lookup in Hin as [n Hn]. specialize (Hall n _ Hn).
      apply second_pass_true in Hnorm. congruence.
    + destruct x as [e'|]; [|done]. exists n, e'. split; [done|]. split; [done|].
      split; [done|]. split; [|by apply second_pass_true].
      intros ->. apply Hnot. apply list_elem_of_lookup. eauto.
  - intros e Hin [_ Hnorm] Hsame. assert (candidate = e) as -> by congruence.
    split; [done|]. by apply Hexact.
  - rewrite matcher_not_found_iff. split.
    + intros Hi. split.
      * intros Hin. by destruct (filenameIndex_exact _ _ Hin).
      * intros e Hin Hnorm. by apply (filenameIndex_normalized _ _ _ Hin Hnorm).
    + intros [Hnot Hnone]. destruct (Z.eq_dec (index candidate m) (-1)%Z) as [|Hi]; [done|].
      destruct (filenameIndex_found _ _ Hi) as (e & Hin & [->|Hnorm]); [done|].
      by destruct (Hnone e Hin).
Qed.

Lemma matcher_resolved (candidate : string) (m : SourceMapV3) (ve : ReactVersion) :
  matcher candidate m = Normal ve ->
  index candidate m <> (-1)%Z /\
  exists contents, at_index (sourcesContent m) (index candidate m) = Some contents /\
    contents <> "" /\ registry !! sha256_hex contents = Some ve.
Proof.
  unfold findMatchingReactDOMVersion, hashSHA256.
  destruct (Z.eqb_spec (index candidate m) (-1)); [done|].
  destruct (at_index _ _) as [contents|]; [|done].
  destruct (truthy contents) eqn:Ht; simpl; [|done].
  destruct (registry !! _) as [ve'|] eqn:Hreg; [|done].
  intros [= ->]. split; [done|]. exists contents. by apply truthy_true in Ht.
Qed.

Lemma matcher_at_index (candidate : string) (m : SourceMapV3) (n : nat) (contents : string)
    (ve : ReactVersion) :
  index candidate m = Z.of_nat n ->
  at_index (sourcesContent m) (Z.of_nat n) = Some contents ->
  contents <> "" ->
  registry !! sha256_hex contents = Some ve ->
  matcher candidate m = Normal ve.
Proof.
  intros Hi Hc Hne Hreg. unfold findMatchingReactDOMVersion, hashSHA256. rewrite Hi.
  destruct (Z.eqb_spec (Z.of_nat n) (-1)); [lia|]. rewrite Hc.
  apply truthy_true in Hne as ->. simpl. by rewrite Hreg.
Qed.

(** C8, as the program has it.  When the candidate is in the source list
    as it is written, the matcher selects its lowest such position, also
    when an entry before it normalizes to the candidate.  When it is not,
    the matcher selects the lowest position whose entry normalizes to the
    candidate.  The content that is hashed and looked up in the registry is
    the one at the selected position. *)
Theorem filenameIndex_first_occurrence (candidate : string) (m : SourceMapV3) :
  (forall n, sources m !! n = Some (Some candidate) ->
     (forall j, (j < n)%nat -> sources m !! j <> Some (Some candidate)) ->
     index candidate m = Z.of_nat n) /\
  (Some candidate ∉ sources m ->
   forall n e, sources m !! n = Some (Some e) -> normalizes_to e candidate ->
     (forall j e', (j < n)%nat -> sources m !! j = Some (Some e') -> ~ normalizes_to e' candidate) ->
     index candidate m = Z.of_nat n) /\
  (forall ve, matcher candidate m = Normal ve ->
     exists contents, at_index (sourcesContent m) (index candidate m) = Some contents /\
       registry !! sha256_hex contents = Some ve).
Proof.
  split; [|split].
  - intros n Hn Hbefore. rewrite filenameIndex_unfold, (indexOf_first _ _ n) by done.
    by destruct (Z.eqb_spec (Z.of_nat n) (-1)); [lia|].
  - intros Hnot n e Hn Hnorm Hbefore. rewrite filenameIndex_fallback by done.
    apply (findIndex_first _ _ n (Some e)); [done|by apply second_pass_true|].
    intros j [e'|] Hj Hy; [|done].
    destruct (second_pass candidate (Some e')) eqn:Hp; [|done].
    apply second_pass_true in Hp. by destruct (Hbefore j e' Hj Hy).
  - intros ve Hm. apply matcher_resolved in Hm as (_ & contents & Hc & _ & Hreg). eauto.
Qed.

(** C9. When the selected position holds the empty string as its content,
    the matcher throws the missing-content error, the same completion as
    for a document that has the same selected position and no content
    there. *)
Theorem empty_content_is_missing_content (candidate : string) (m : SourceMapV3) :
  index candidate m <> (-1)%Z ->
  at_index (sourcesContent m) (index candidate m) = Some "" ->
  matcher candidate m =
    Throw (Error ("Cannot find source contents for '" +:+ candidate +:+ "'")) /\
  forall m', index candidate m' = index candidate m ->
    at_index (sourcesContent m') (index candidate m') = None ->
    matcher candidate m' = matcher candidate m.
Proof.
  intros Hi Hc.
  assert (matcher candidate m =
    Throw (Error ("Cannot find source contents for '" +:+ candidate +:+ "'"))) as Hm.
  { unfold findMatchingReactDOMVersion.
    destruct (Z.eqb_spec (index candidate m) (-1)); [done|]. by rewrite Hc. }
  split; [done|]. intros m' Hi' Hc'. rewrite Hm. unfold findMatchingReactDOMVersion.
  destruct (Z.eqb_spec (index candidate m') (-1)); [congruence|]. by rewrite Hc'.
Qed.

End Matcher.

(** The entry of the comment in the program, and its normal form. *)
Definition webpack_entry : string :=
  "webpack://_N_E/./node_modules/react-dom/cjs/react-dom.production.min.js".
Definition webpack_resolved : string :=
  "webpack://_N_E/node_modules/react-dom/cjs/react-dom.production.min.js".

(** C5 is not what the program does for the entry without protocol
    prefix.  Normalization leaves that entry as it is, so the name under
    which the walk hands it to the matcher is the entry itself, and the
    first pass finds it: the second pass is not run.  For the name without
    the leading [./] neither pass finds the entry, and the matcher
    throws. *)
Lemma dot_entry_counterexample :
  let e := "./node_modules/react-dom/cjs/react-dom.production.min.js" in
  let bare := "node_modules/react-dom/cjs/react-dom.production.min.js" in
  let m := Sample.bundle None [Some e] [Some Sample.minified] in
  resolve Sample.resolveUri e (Some "") = e /\
  new_TraceMap Sample.resolveUri (toJS m) "" Sample.world0 =
    Some (Normal {| document := m; resolvedSources := [e] |}, Sample.world0) /\
  indexOf (sources m) e = 0%Z /\
  filenameIndex Sample.resolveUri e m = indexOf (sources m) e /\
  findMatchingReactDOMVersion Sample.resolveUri Sample.sha256_hex
    Sample.hashesToSourcemapDescriptors e m = Normal Sample.react_dom_18_2_0 /\
  findIndex (second_pass Sample.resolveUri bare) (sources m) = (-1)%Z /\
  findMatchingReactDOMVersion Sample.resolveUri Sample.sha256_hex
    Sample.hashesToSourcemapDescriptors bare m =
    Throw (Error ("Cannot find '" +:+ bare +:+ "' in input sourcemap")).
Proof.
  intros e bare m. repeat split; by vm_compute.
Qed.

(** A name is not in a list whose only entry is another name. *)
Lemma absent (candidate e : string) :
  String.eqb candidate e = false -> Some candidate ∉ [Some e].
Proof.
  intros Hne Hin. apply list_elem_of_singleton in Hin. injection Hin as ->.
  by rewrite String.eqb_refl in Hne.
Qed.

(** C5 at a document whose only source is the entry of the comment in the
    program: the candidate is its normal form, the first pass finds
    nothing, the second pass finds the entry and the matcher does not
    throw its source-not-found error; for a name that is not in the
    document it does. *)
Lemma filenameIndex_two_passes_witness :
  let m := Sample.bundle None [Some webpack_entry] [Some Sample.minified] in
  (exists n e',
     filenameIndex Sample.resolveUri webpack_resolved m = Z.of_nat n /\
     findIndex (second_pass Sample.resolveUri webpack_resolved) (sources m) = Z.of_nat n /\
     sources m !! n = Some (Some e') /\
     e' <> webpack_resolved /\
     normalizes_to Sample.resolveUri e' webpack_resolved) /\
  findMatchingReactDOMVersion Sample.resolveUri Sample.sha256_hex
    Sample.hashesToSourcemapDescriptors webpack_resolved m <>
    Throw (Error ("Cannot find '" +:+ webpack_resolved +:+ "' in input sourcemap")) /\
  findMatchingReactDOMVersion Sample.resolveUri Sample.sha256_hex
    Sample.hashesToSourcemapDescriptors "src/app.js" m =
    Throw (Error ("Cannot find '" +:+ "src/app.js" +:+ "' in input sourcemap")).
Proof.
  intros m. split; [|split].
  2:{ pose proof (filenameIndex_two_passes Sample.resolveUri Sample.sha256_hex
                    Sample.hashesToSourcemapDescriptors webpack_resolved m) as (_ & _ & _ & _ & H).
      intros Hthrow. apply H in Hthrow as [_ Hnone]. apply (Hnone webpack_entry).
      - apply list_elem_of_here.
      - split; [done|by vm_compute]. }
  - pose proof (filenameIndex_two_passes Sample.resolveUri Sample.sha256_hex
                  Sample.hashesToSourcemapDescriptors webpack_resolved m) as (_ & _ & H & _).
    apply (H (absent webpack_resolved webpack_entry eq_refl) webpack_entry).
    + apply list_elem_of_here.
    + split; [done|by vm_compute].
  - pose proof (filenameIndex_two_passes Sample.resolveUri Sample.sha256_hex
                  Sample.hashesToSourcemapDescriptors "src/app.js" m) as (_ & _ & _ & _ & H).
    apply H. split.
    + exact (absent "src/app.js" webpack_entry eq_refl).
    + intros e' Hin [_ Hnorm]. apply list_elem_of_singleton in Hin. injection Hin as ->.
      vm_compute in Hnorm. discriminate Hnorm.
Defined.

(** C8 is not what the program does when the positions are of both kinds:
    the first source normalizes to the candidate and the second is the
    candidate as written; the matcher selects the second, and hashes the
    content of the second. *)
Lemma first_occurrence_counterexample :
  let m := Sample.bundle None [Some webpack_entry; Some webpack_resolved]
             [Some Sample.minified; Some "/* something else */"] in
  normalizes_to Sample.resolveUri webpack_entry webpack_resolved /\
  sources m !! 0%nat = Some (Some webpack_entry) /\
  filenameIndex Sample.resolveUri webpack_resolved m = 1%Z /\
  findMatchingReactDOMVersion Sample.resolveUri Sample.sha256_hex
    Sample.hashesToSourcemapDescriptors webpack_resolved m =
    Throw (Error ("Cannot find version for '" +:+ webpack_resolved +:+ "'")).
Proof.
  intros m. repeat split; by vm_compute.
Qed.

Lemma filenameIndex_first_occurrence_witness :
  let m := Sample.bundle None [Some webpack_entry; Some webpack_resolved]
             [Some Sample.minified; Some "/* something else */"] in
  filenameIndex Sample.resolveUri webpack_resolved m = 1%Z.
Proof.
  intros m.
  pose proof (filenameIndex_first_occurrence Sample.resolveUri Sample.sha256_hex
                Sample.hashesToSourcemapDescriptors webpack_resolved m) as (H & _).
  apply (H 1%nat); [reflexivity|]. intros [|j] Hj; [by vm_compute|lia].
Defined.

Lemma empty_content_is_missing_content_witness :
  let m := Sample.bundle None [Some webpack_entry] [Some ""] in
  findMatchingReactDOMVersion Sample.resolveUri Sample.sha256_hex
    Sample.hashesToSourcemapDescriptors webpack_resolved m =
    Throw (Error ("Cannot find source contents for '" +:+ webpack_resolved +:+ "'")).
Proof.
  intros m.
  refine (proj1 (empty_content_is_missing_content Sample.resolveUri Sample.sha256_hex
           Sample.hashesToSourcemapDescriptors webpack_resolved m _ _)).
  - vm_compute. discriminate.
  - vm_compute. reflexivity.
Defined.

(** ** Validation *)

Section Validation.

Context (resolveUri : string -> option string -> string)
        (sha256_hex : string -> string)
        (registry : gmap string ReactVersion)
        (fs : gmap string string)
        (JSON_parse : string -> option JSValue)
        (path_join : list string -> string)
        (dirname : string)
        (traceMappings : Sources -> SourceMapV3).

Local Abbreviation rewrite :=
  (maybeRewriteSourcemapWithReactProd resolveUri sha256_hex registry fs JSON_parse
     path_join dirname traceMappings).

Lemma isSourceMapV3_object (v : JSValue) :
  isSourceMapV3 v = true <->
  exists props, v = JObject props /\
    strict_eq_number (default JUndefined (assoc "version" props)) 3%float = true /\
    is_Some (assoc "names" props) /\ is_Some (assoc "sources" props).
Proof.
  unfold isSourceMapV3. split.
  - intros H. repeat (apply andb_prop in H as [H ?]).
    destruct v as [| | | | |elems|props]; try done.
    exists props. repeat split; [done|by eapply bool_decide_eq_true..].
  - intros (props & -> & Hv & Hn & Hs). simpl in *. rewrite Hv.
    by rewrite !bool_decide_eq_true_2.
Qed.

Lemma rewrite_invalid (v : JSValue) (fuel : nat) (options : Options) (w : World) :
  isSourceMapV3 v = false ->
  rewrite fuel v options w = Some (Throw (Error "Invalid sourcemap"), w).
Proof. intros H. unfold maybeRewriteSourcemapWithReactProd. by rewrite H. Qed.

Lemma loadSourcemap_parsed (filePath text : string) (v : JSValue) :
  fs !! filePath = Some text -> JSON_parse text = Some v ->
  loadSourcemap fs JSON_parse filePath =
    if isSourceMapV3 v then Normal v else Throw (Error ("Invalid sourcemap: " +:+ filePath)).
Proof. intros Hf Hp. unfold loadSourcemap. rewrite Hf, Hp. by destruct (isSourceMapV3 v). Qed.

(** C2, as the program has it.  The validation accepts a value exactly
    when it is an object whose [version] is the number 3 and that has a
    [names] key and a [sources] key; what the two keys hold is not looked
    at.  So a value that is [null] or [undefined], whose [version] is not
    3, or that lacks one of the keys is refused: the entry point throws
    [Invalid sourcemap] before anything else, and the loader throws
    [Invalid sourcemap: <path>] for a file that parses to it. *)
Theorem validation_checks_presence (v : JSValue) :
  (isSourceMapV3 v = true <->
     exists props, v = JObject props /\
       strict_eq_number (default JUndefined (assoc "version" props)) 3%float = true /\
       is_Some (assoc "names" props) /\ is_Some (assoc "sources" props)) /\
  (v = JNull \/ v = JUndefined \/ strict_eq_number (get v "version") 3%float = false \/
   js_in "names" v = false \/ js_in "sources" v = false ->
     isSourceMapV3 v = false) /\
  (isSourceMapV3 v = false ->
     forall fuel options w,
       rewrite fuel v options w = Some (Throw (Error "Invalid sourcemap"), w)) /\
  (forall filePath text, fs !! filePath = Some text -> JSON_parse text = Some v ->
     loadSourcemap fs JSON_parse filePath =
       if isSourceMapV3 v then Normal v
       else Throw (Error ("Invalid sourcemap: " +:+ filePath))).
Proof.
  split; [apply isSourceMapV3_object|]. split; [|split].
  - unfold isSourceMapV3. intros [->|[->|[H|[H|H]]]]; [done..| | |]; rewrite H;
      by rewrite ?andb_false_r.
  - intros H fuel options w. by apply rewrite_invalid.
  - intros filePath text. apply loadSourcemap_parsed.
Qed.

End Validation.

(** A value with the three keys and nothing of the right shape. *)
Definition shapeless : JSValue :=
  JObject [("version", JNumber 3%float); ("names", JNumber 0%float);
           ("sources", JString "x")].

(** C2 is not what the program does for the shapes: [names] is a number
    and [sources] a string here, the value is outside the interface, and
    the validation accepts it and the loader returns it. *)
Lemma shapeless_document_accepted :
  asSourceMapV3 shapeless = None /\
  isSourceMapV3 shapeless = true /\
  loadSourcemap {[ "dist/index.js.map" := "<shapeless>" ]} Sample.JSON_parse
    "dist/index.js.map" = Normal shapeless.
Proof. repeat split; by vm_compute. Qed.

Lemma validation_checks_presence_witness :
  Sample.run Sample.fs 1 (JObject [("version", JNumber 2%float); ("names", JArray []);
                                  ("sources", JArray [])]) default_options =
    Some (Throw (Error "Invalid sourcemap"), Sample.world0).
Proof.
  refine (proj1 (proj2 (proj2 (validation_checks_presence Sample.resolveUri Sample.sha256_hex
    Sample.hashesToSourcemapDescriptors Sample.fs Sample.JSON_parse Sample.path_join
    Sample.dirname Sample.traceMappings _))) _ 1%nat default_options Sample.world0).
  by vm_compute.
Defined.

(** ** Running computations *)

Lemma bind_run {A B} (m : M A) (f : A -> M B) (w : World) :
  (m ≫= f) w =
    match m w with
    | Some (Normal a, w') => f a w'
    | Some (Throw e, w') => Some (Throw e, w')
    | None => None
    end.
Proof. reflexivity. Qed.

Lemma bind_inv {A B} (m : M A) (f : A -> M B) (w w2 : World) (c : Completion B) :
  (m ≫= f) w = Some (c, w2) ->
  exists c1 w1, m w = Some (c1, w1) /\
    match c1 with
    | Normal a => f a w1 = Some (c, w2)
    | Throw e => c = Throw e /\ w2 = w1
    end.
Proof.
  rewrite bind_run. destruct (m w) as [[[a|e] w1]|]; [..|done].
  - intros H. by exists (Normal a), w1.
  - intros [= <- <-]. by exists (Throw e), w1.
Qed.

Lemma when_log_run (b : bool) (args : list LogArg) (w : World) :
  exists w', when b (log args) w = Some (Normal (), w') /\ reactVersions w' = reactVersions w.
Proof. destruct b; eexists; split; reflexivity. Qed.

Lemma mapM_nil_run {A B} (f : A -> M B) (w : World) :
  mapM f [] w = Some (Normal [], w).
Proof. reflexivity. Qed.

Lemma mapM_cons_run {A B} (f : A -> M B) (x : A) (l : list A) (w : World) :
  mapM f (x :: l) w =
    match f x w with
    | Some (Normal y, w1) =>
        match mapM f l w1 with
        | Some (Normal k, w2) => Some (Normal (y :: k), w2)
        | Some (Throw e, w2) => Some (Throw e, w2)
        | None => None
        end
    | Some (Throw e, w1) => Some (Throw e, w1)
    | None => None
    end.
Proof.
  simpl. rewrite bind_run. destruct (f x w) as [[[y|e] w1]|]; [|done..].
  rewrite bind_run. by destruct (mapM f l w1) as [[[k|e] w2]|].
Qed.

Lemma mapM_app_run {A B} (f : A -> M B) (l1 l2 : list A) (w : World) :
  mapM f (l1 ++ l2) w =
    match mapM f l1 w with
    | Some (Normal k1, w1) =>
        match mapM f l2 w1 with
        | Some (Normal k2, w2) => Some (Normal (k1 ++ k2)%list, w2)
        | Some (Throw e, w2) => Some (Throw e, w2)
        | None => None
        end
    | Some (Throw e, w1) => Some (Throw e, w1)
    | None => None
    end.
Proof.
  revert w. induction l1 as [|x l1 IH]; intros w.
  - simpl app. rewrite mapM_nil_run. by destruct (mapM f l2 w) as [[[k|e] w2]|].
  - simpl app. rewrite !mapM_cons_run. destruct (f x w) as [[[y|e] w1]|]; [|done..].
    rewrite IH. destruct (mapM f l1 w1) as [[[k1|e] w2]|]; [|done..].
    by destruct (mapM f l2 w2) as [[[k2|e] w3]|].
Qed.

(** ** The loader and the walk *)

Section Walk.

Context (resolveUri : string -> option string -> string)
        (sha256_hex : string -> string)
        (registry : gmap string ReactVersion)
        (fs : gmap string string)
        (JSON_parse : string -> option JSValue)
        (path_join : list string -> string)
        (dirname : string)
        (traceMappings : Sources -> SourceMapV3).

Local Abbreviation matcher := (findMatchingReactDOMVersion resolveUri sha256_hex registry).
Local Abbreviation load := (loadSourcemap fs JSON_parse).
Local Abbreviation the_loader :=
  (loader resolveUri sha256_hex registry fs JSON_parse path_join dirname).
Local Abbreviation rewrite :=
  (maybeRewriteSourcemapWithReactProd resolveUri sha256_hex registry fs JSON_parse
     path_join dirname traceMappings).

(** Where the map recorded for a release is read from. *)
Definition recorded_map_path (versionEntry : ReactVersion) : string :=
  path_join [dirname; "../assets"; package versionEntry; version versionEntry;
             filename versionEntry +:+ ".map"].

(** What a call of the loader comes to, the console apart: its completion
    and the releases it appends to [reactVersions]. *)
Definition loader_outcome (m : SourceMapV3) (file src : string)
  : Completion (option JSValue) * list ReactVersion :=
  match regexp_exec SUPPORTED_PACKAGES src with
  | None => (Normal None, [])
  | Some _ =>
      match matcher file m with
      | Throw e => (Throw e, [])
      | Normal versionEntry =>
          (match load (recorded_map_path versionEntry) with
           | Throw e => Throw e
           | Normal sourcemap => Normal (Some sourcemap)
           end, [versionEntry])
      end
  end.

Lemma loadSourcemap_valid (filePath : string) (v : JSValue) :
  load filePath = Normal v -> isSourceMapV3 v = true /\ js_falsy v = false.
Proof.
  unfold loadSourcemap. destruct (fs !! filePath) as [text|]; [|done].
  destruct (JSON_parse text) as [v'|]; [|done].
  destruct (isSourceMapV3 v') eqn:Hv; [|done]. intros [= ->]. split; [done|].
  apply isSourceMapV3_object in Hv as (props & -> & _). done.
Qed.

Lemma loader_run (v : JSValue) (m : SourceMapV3) (options : Options) (file : string)
    (ctx : LoaderContext) (w : World) :
  asSourceMapV3 v = Some m ->
  exists w', the_loader v options file ctx w = Some ((loader_outcome m file (source ctx)).1, w') /\
    reactVersions w' = (reactVersions w ++ (loader_outcome m file (source ctx)).2)%list.
Proof.
  intros Hm. unfold loader, loader_outcome.
  destruct (regexp_exec SUPPORTED_PACKAGES (source ctx)) as [mp|].
  - rewrite bind_run.
    destruct (when_log_run (verbose_on options)
      [LStr ("Found " +:+ join_comma mp +:+ " in file:"); LCtx ctx] w) as (w1 & -> & Hw1).
    rewrite Hm, bind_run. unfold fmap, M_fmap. rewrite bind_run. unfold lift at 1.
    destruct (matcher file m) as [ve|e]; simpl.
    + unfold push at 1. rewrite !bind_run. simpl.
      match goal with |- context [when ?b (log ?a) ?w0] =>
        destruct (when_log_run b a w0) as (w2 & -> & Hw2) end.
      unfold loadExistingSourcemap. fold (recorded_map_path ve). rewrite !bind_run. simpl.
      unfold lift. destruct (load (recorded_map_path ve)) as [sm|e] eqn:Hload.
      * destruct (loadSourcemap_valid _ _ Hload) as [-> ->]. simpl.
        eexists. split; [reflexivity|]. rewrite Hw2. simpl. by rewrite Hw1.
      * eexists. split; [reflexivity|]. rewrite Hw2. simpl. by rewrite Hw1.
    + eexists. split; [reflexivity|]. by rewrite Hw1, app_nil_r.
  - rewrite bind_run.
    match goal with |- context [when ?b (log ?a) ?w0] =>
      destruct (when_log_run b a w0) as (w1 & -> & Hw1) end.
    eexists. split; [reflexivity|]. by rewrite Hw1, app_nil_r.
Qed.

(** What [build] does for one source of a map. *)
Definition child (fuel : nat) (ld : string -> LoaderContext -> M (option JSValue))
    (map : TraceMap) (importer : string) (depth : nat) : nat * string -> M Sources :=
  fun '(i, sourceFile) =>
  let ctx := {| importer := importer; depth := depth; source := sourceFile |} in
  sourceMap ← ld (source ctx) ctx;
  match sourceMap with
  | Some sourceMap =>
      tm ← new_TraceMap resolveUri sourceMap (source ctx);
      build resolveUri fuel ld tm (source ctx) depth
  | None =>
      mret (OriginalSource (source ctx)
              (at_index (sourcesContent (document map)) (Z.of_nat i)))
  end.

(** The leaf that a source without a map becomes. *)
Definition leaf (map : TraceMap) (p : nat * string) : Sources :=
  OriginalSource p.2 (at_index (sourcesContent (document map)) (Z.of_nat p.1)).

(** The tree of a map none of whose sources has a map of its own. *)
Definition flat_tree (map : TraceMap) : Sources :=
  MapSource map (leaf map <$> imap pair (resolvedSources map)).

Lemma build_S (fuel : nat) (ld : string -> LoaderContext -> M (option JSValue))
    (map : TraceMap) (importer : string) (depth : nat) :
  build resolveUri (S fuel) ld map importer depth =
    (children ← mapM (child fuel ld map importer (depth + 1)) (imap pair (resolvedSources map));
     mret (MapSource map children)).
Proof. reflexivity. Qed.

Lemma new_TraceMap_run (v : JSValue) (mapUrl : string) (w : World) :
  new_TraceMap resolveUri v mapUrl w =
    match asSourceMapV3 v with
    | Some m =>
        Some (Normal {| document := m;
                        resolvedSources :=
                          (fun s => resolve resolveUri (default "" s)
                             (Some (resolve resolveUri (default "" (sourceRoot m))
                                      (Some (stripFilename mapUrl))))) <$> sources m |}, w)
    | None => None
    end.
Proof. unfold new_TraceMap. by destruct (asSourceMapV3 v). Qed.

Lemma child_run (v : JSValue) (m : SourceMapV3) (options : Options) (fuel : nat)
    (map : TraceMap) (importer : string) (depth i : nat) (f : string) (w : World) :
  asSourceMapV3 v = Some m ->
  exists w1, reactVersions w1 = (reactVersions w ++ (loader_outcome m f f).2)%list /\
    child fuel (the_loader v options) map importer depth (i, f) w =
      match (loader_outcome m f f).1 with
      | Normal (Some sourceMap) =>
          (tm ← new_TraceMap resolveUri sourceMap f;
           build resolveUri fuel (the_loader v options) tm f depth) w1
      | Normal None => Some (Normal (leaf map (i, f)), w1)
      | Throw e => Some (Throw e, w1)
      end.
Proof.
  intros Hm. unfold child. cbn [source]. rewrite bind_run.
  destruct (loader_run v m options f
              {| importer := importer; depth := depth; source := f |} w Hm) as (w1 & -> & Hw1).
  cbn [source] in *. exists w1. split; [done|].
  by destruct ((loader_outcome m f f).1) as [[sm|]|e].
Qed.

(** A release is appended by a call of the loader only where the pattern
    matches, and no map is returned without one. *)
Lemma loader_outcome_cases (m : SourceMapV3) (f : string) :
  (regexp_exec SUPPORTED_PACKAGES f = None /\ loader_outcome m f f = (Normal None, [])) \/
  (is_Some (regexp_exec SUPPORTED_PACKAGES f) /\
   ((exists e, matcher f m = Throw e /\ loader_outcome m f f = (Throw e, [])) \/
    (exists ve e, matcher f m = Normal ve /\ load (recorded_map_path ve) = Throw e /\
       loader_outcome m f f = (Throw e, [ve])) \/
    (exists ve sm, matcher f m = Normal ve /\ load (recorded_map_path ve) = Normal sm /\
       loader_outcome m f f = (Normal (Some sm), [ve])))).
Proof.
  unfold loader_outcome. destruct (regexp_exec SUPPORTED_PACKAGES f) as [mp|]; [right|by left].
  split; [done|]. destruct (matcher f m) as [ve|e] eqn:Hmatch; [|left; by exists e].
  right. destruct (load (recorded_map_path ve)) as [sm|e] eqn:Hload;
    [right; by exists ve, sm|left; by exists ve, e].
Qed.

(** The array [reactVersions] only grows during the walk. *)
Lemma mapM_grows {A B} (f : A -> M B) (l : list A) :
  (forall x w c w', x ∈ l -> f x w = Some (c, w') -> reactVersions w `prefix_of` reactVersions w') ->
  forall w c w', mapM f l w = Some (c, w') -> reactVersions w `prefix_of` reactVersions w'.
Proof.
  induction l as [|x l IH]; intros Hf w c w'.
  - rewrite mapM_nil_run. by intros [= <- <-].
  - rewrite mapM_cons_run. destruct (f x w) as [[[y|e] w1]|] eqn:Hx; [| |done].
    + assert (reactVersions w `prefix_of` reactVersions w1) as H1
        by (eapply Hf; [apply list_elem_of_here|done]).
      assert (forall w c w', mapM f l w = Some (c, w') ->
                reactVersions w `prefix_of` reactVersions w') as IH'.
      { apply IH. intros x0 w0 c0 w0' Hin. apply Hf. by apply list_elem_of_further. }
      destruct (mapM f l w1) as [[[k|e] w2]|] eqn:Hl; [| |done]; intros [= <- <-];
        (etrans; [exact H1|]); by eapply IH'.
    + intros [= <- <-]. eapply Hf; [apply list_elem_of_here|done].
Qed.

Lemma build_grows (v : JSValue) (m : SourceMapV3) (options : Options) (fuel : nat) :
  asSourceMapV3 v = Some m ->
  forall map importer depth w c w',
    build resolveUri fuel (the_loader v options) map importer depth w = Some (c, w') ->
    reactVersions w `prefix_of` reactVersions w'.
Proof.
  intros Hm. induction fuel as [|fuel IH]; intros map importer depth w c w'; [done|].
  rewrite build_S. intros H. apply bind_inv in H as (c1 & w1 & Hch & H).
  assert (reactVersions w `prefix_of` reactVersions w1) as Hp.
  { eapply mapM_grows; [|exact Hch]. intros [i f] w0 c0 w0' _ Hx.
    destruct (child_run v m options fuel map importer (depth + 1) i f w0 Hm) as (w2 & Hw2 & Hrun).
    rewrite Hrun in Hx. clear Hrun.
    assert (reactVersions w0 `prefix_of` reactVersions w2) as H02
      by (rewrite Hw2; by apply prefix_app_r).
    destruct ((loader_outcome m f f).1) as [[sm|]|e].
    - apply bind_inv in Hx as (c3 & w3 & Htm & Hx). rewrite new_TraceMap_run in Htm.
      destruct (asSourceMapV3 sm); [|done]. injection Htm as <- <-.
      etrans; [exact H02|]. by eapply IH.
    - by injection Hx as <- <-.
    - by injection Hx as <- <-. }
  destruct c1 as [children|e]; [by injection H as <- <-|by destruct H as [_ ->]].
Qed.

Lemma child_grows (v : JSValue) (m : SourceMapV3) (options : Options) (fuel : nat)
    (map : TraceMap) (importer : string) (depth : nat) (p : nat * string)
    (w w' : World) (c : Completion Sources) :
  asSourceMapV3 v = Some m ->
  child fuel (the_loader v options) map importer depth p w = Some (c, w') ->
  reactVersions w `prefix_of` reactVersions w'.
Proof.
  intros Hm Hx. destruct p as [i f].
  destruct (child_run v m options fuel map importer depth i f w Hm) as (w2 & Hw2 & Hrun).
  rewrite Hrun in Hx. clear Hrun.
  assert (reactVersions w `prefix_of` reactVersions w2) as H02
    by (rewrite Hw2; by apply prefix_app_r).
  destruct ((loader_outcome m f f).1) as [[sm|]|e].
  - apply bind_inv in Hx as (c3 & w3 & Htm & Hx). rewrite new_TraceMap_run in Htm.
    destruct (asSourceMapV3 sm); [|done]. injection Htm as <- <-.
    etrans; [exact H02|]. by eapply build_grows.
  - by injection Hx as <- <-.
  - by injection Hx as <- <-.
Qed.

(** When [reactVersions] is after the sources of a map what it was before
    them, every one of them has become a leaf. *)
Lemma children_flat (v : JSValue) (m : SourceMapV3) (options : Options) (fuel : nat)
    (map : TraceMap) (importer : string) (depth : nat) (l : list (nat * string)) :
  asSourceMapV3 v = Some m ->
  forall w ts w',
    mapM (child fuel (the_loader v options) map importer depth) l w = Some (Normal ts, w') ->
    reactVersions w' = reactVersions w ->
    ts = leaf map <$> l.
Proof.
  intros Hm. induction l as [|[i f] l IH]; intros w ts w'.
  - rewrite mapM_nil_run. by intros [= <- <-].
  - rewrite mapM_cons_run.
    destruct (child fuel (the_loader v options) map importer depth (i, f) w)
      as [[[t|e] w1]|] eqn:Hch; [| done..].
    destruct (mapM (child fuel (the_loader v options) map importer depth) l w1)
      as [[[k|e] w2]|] eqn:Hl; [|done..].
    intros [= <- <-] Hsame.
    pose proof (child_grows _ _ _ _ _ _ _ _ _ _ _ Hm Hch) as H1.
    assert (reactVersions w1 `prefix_of` reactVersions w2) as H2.
    { eapply mapM_grows; [|exact Hl]. intros x w0 c0 w0' _. by apply child_grows with m. }
    assert (reactVersions w1 = reactVersions w) as Hw1.
    { rewrite Hsame in H2. by apply (anti_symm prefix). }
    destruct (child_run v m options fuel map importer depth i f w Hm) as (w3 & Hw3 & Hrun).
    rewrite Hrun in Hch. clear Hrun.
    destruct (loader_outcome_cases m f) as [[_ Ho]|[_ [(e & _ & Ho)|[(ve & e & _ & _ & Ho)|
      (ve & sm & _ & _ & Ho)]]]]; rewrite Ho in Hch, Hw3; simpl in Hch, Hw3.
    + injection Hch as <- Heq. subst w3. simpl. f_equal. apply (IH w1 k w2 Hl). congruence.
    + done.
    + done.
    + exfalso. apply bind_inv in Hch as (c3 & w4 & Htm & Hch). rewrite new_TraceMap_run in Htm.
      assert (reactVersions w3 `prefix_of` reactVersions w1) as H31.
      { destruct (asSourceMapV3 sm); [|done]. injection Htm as <- <-.
        by eapply build_grows. }
      apply prefix_length in H31. rewrite Hw3, Hw1, length_app in H31. simpl in H31. lia.
Qed.

Lemma build_flat (v : JSValue) (m : SourceMapV3) (options : Options) (fuel : nat)
    (map : TraceMap) (importer : string) (depth : nat) (w w' : World) (t : Sources) :
  asSourceMapV3 v = Some m ->
  build resolveUri fuel (the_loader v options) map importer depth w = Some (Normal t, w') ->
  reactVersions w' = reactVersions w ->
  t = flat_tree map.
Proof.
  intros Hm. destruct fuel as [|fuel]; [done|]. rewrite build_S. intros H Hsame.
  apply bind_inv in H as ([children|e] & w1 & Hch & H); [|by destruct H].
  injection H as <- <-. unfold flat_tree. f_equal. by eapply children_flat.
Qed.

(** The loader that has no map for any source. *)
Definition no_replacement : string -> LoaderContext -> M (option JSValue) :=
  fun _ _ => mret None.

Lemma build_no_replacement (fuel : nat) (map : TraceMap) (importer : string) (depth : nat)
    (w : World) :
  build resolveUri (S fuel) no_replacement map importer depth w =
    Some (Normal (flat_tree map), w).
Proof.
  rewrite build_S, bind_run.
  assert (forall l, mapM (child fuel no_replacement map importer (depth + 1)) l w =
            Some (Normal (leaf map <$> l), w)) as ->; [|done].
  induction l as [|[i f] l IH]; [done|]. rewrite mapM_cons_run. simpl. by rewrite IH.
Qed.

(** The map that [new TraceMap(m, mapUrl)] holds. *)
Definition trace_map (m : SourceMapV3) (mapUrl : string) : TraceMap :=
  {| document := m;
     resolvedSources :=
       (fun s => resolve resolveUri (default "" s)
          (Some (resolve resolveUri (default "" (sourceRoot m)) (Some (stripFilename mapUrl)))))
       <$> sources m |}.

Lemma new_TraceMap_typed (v : JSValue) (m : SourceMapV3) (mapUrl : string) (w : World) :
  asSourceMapV3 v = Some m ->
  new_TraceMap resolveUri v mapUrl w = Some (Normal (trace_map m mapUrl), w).
Proof. intros H. by rewrite new_TraceMap_run, H. Qed.

Lemma asSourceMapV3_valid (v : JSValue) (m : SourceMapV3) :
  asSourceMapV3 v = Some m -> isSourceMapV3 v = true.
Proof. unfold asSourceMapV3. by destruct (isSourceMapV3 v). Qed.

(** The world in which the walk of a call starts. *)
Definition fresh (w : World) : World := {| reactVersions := []; console := console w |}.

(** The world that a call leaves after a walk that ended in [w1]. *)
Definition after_walk (options : Options) (w1 : World) : World :=
  if (1 <? length (reactVersions w1))%nat && verbose_on options
  then {| reactVersions := reactVersions w1;
          console := console w1 ++
            [[LStr "Found multiple React versions:"; LStrs (version <$> reactVersions w1)]] |}
  else w1.

(** The result that the entry point makes of the tree and of the
    releases found. *)
Definition result_of (tree : Sources) (found : list ReactVersion) : RewriteSourcemapResult :=
  {| outputSourcemap := traceMappings tree;
     rewroteSourcemap := (0 <? length found)%nat;
     reactVersion := head found |}.

Lemma rewrite_run (fuel : nat) (v : JSValue) (m : SourceMapV3) (options : Options) (w : World) :
  asSourceMapV3 v = Some m ->
  rewrite fuel v options w =
    match build resolveUri fuel (the_loader v options) (trace_map m "") "" 0 (fresh w) with
    | Some (Normal tree, w1) =>
        Some (Normal (result_of tree (reactVersions w1)), after_walk options w1)
    | Some (Throw e, w1) => Some (Throw e, w1)
    | None => None
    end.
Proof.
  intros Hm. unfold maybeRewriteSourcemapWithReactProd.
  rewrite (asSourceMapV3_valid v m Hm). cbn [negb].
  rewrite bind_run. unfold fresh_reactVersions at 1. fold (fresh w).
  rewrite bind_run. unfold remapping. rewrite bind_run, (new_TraceMap_typed v m "" _ Hm).
  rewrite bind_run.
  destruct (build resolveUri fuel (the_loader v options) (trace_map m "") "" 0 (fresh w))
    as [[[tree|e] w1]|]; [|done..].
  unfold mret at 1, M_ret at 1. rewrite bind_run. unfold read_reactVersions at 1.
  rewrite bind_run. unfold after_walk, result_of.
  by destruct ((1 <? length (reactVersions w1))%nat && verbose_on options).
Qed.

(** The return of a call is described for the documents of the interface
    only. *)
Lemma described_return (fuel : nat) (v : JSValue) (options : Options) (w w' : World)
    (r : RewriteSourcemapResult) :
  rewrite fuel v options w = Some (Normal r, w') ->
  exists m, asSourceMapV3 v = Some m.
Proof.
  destruct (asSourceMapV3 v) as [m|] eqn:Hm; [by exists m|].
  unfold maybeRewriteSourcemapWithReactProd. destruct (isSourceMapV3 v); [|done]. cbn [negb].
  rewrite bind_run. unfold fresh_reactVersions at 1.
  rewrite bind_run. unfold remapping. by rewrite bind_run, new_TraceMap_run, Hm.
Qed.

Lemma after_walk_reactVersions (options : Options) (w1 : World) :
  reactVersions (after_walk options w1) = reactVersions w1.
Proof. unfold after_walk. by destruct (_ && _). Qed.

Lemma remapping_no_replacement (v : JSValue) (m : SourceMapV3) (fuel : nat) (w : World) :
  asSourceMapV3 v = Some m ->
  remapping resolveUri traceMappings (S fuel) v no_replacement w =
    Some (Normal (traceMappings (flat_tree (trace_map m ""))), w).
Proof.
  intros Hm. unfold remapping.
  by rewrite bind_run, (new_TraceMap_typed v m "" _ Hm), bind_run, build_no_replacement.
Qed.

(** ** Walking a source list *)

(** The pattern does not match the name. *)
Definition unmatched (f : string) : Prop := regexp_exec SUPPORTED_PACKAGES f = None.

Lemma loader_outcome_unmatched (m : SourceMapV3) (f : string) :
  unmatched f -> loader_outcome m f f = (Normal None, []).
Proof. unfold unmatched, loader_outcome. by intros ->. Qed.

Lemma loader_outcome_matched (m : SourceMapV3) (f : string) :
  is_Some (regexp_exec SUPPORTED_PACKAGES f) ->
  loader_outcome m f f =
    match matcher f m with
    | Throw e => (Throw e, [])
    | Normal versionEntry =>
        (match load (recorded_map_path versionEntry) with
         | Throw e => Throw e
         | Normal sourcemap => Normal (Some sourcemap)
         end, [versionEntry])
    end.
Proof. unfold loader_outcome. by intros [mp ->]. Qed.

Lemma children_unmatched (v : JSValue) (m : SourceMapV3) (options : Options) (fuel : nat)
    (map : TraceMap) (importer : string) (depth : nat) (l : list (nat * string)) (w : World) :
  asSourceMapV3 v = Some m ->
  Forall (fun p => unmatched p.2) l ->
  exists w', mapM (child fuel (the_loader v options) map importer depth) l w =
               Some (Normal (leaf map <$> l), w') /\
             reactVersions w' = reactVersions w.
Proof.
  intros Hm Hall. revert w. induction Hall as [|[i f] l Hf _ IH]; intros w.
  - by exists w.
  - rewrite mapM_cons_run.
    destruct (child_run v m options fuel map importer depth i f w Hm) as (w1 & Hw1 & ->).
    rewrite (loader_outcome_unmatched m f Hf) in *. simpl in *.
    destruct (IH w1) as (w2 & -> & Hw2). exists w2. split; [done|].
    by rewrite Hw2, Hw1, app_nil_r.
Qed.

Lemma imap_unmatched (g : nat -> nat) (l : list string) :
  Forall unmatched l -> Forall (fun p : nat * string => unmatched p.2) (imap (fun i => pair (g i)) l).
Proof.
  intros H. revert g. induction H as [|f l Hf _ IH]; intros g; [constructor|].
  simpl. constructor; [done|]. apply (IH (g ∘ S)).
Qed.

Lemma imap_pair_app (pre : list string) (f : string) (post : list string) :
  imap pair (pre ++ f :: post) =
    (imap pair pre ++ (length pre, f) :: imap (fun i => pair (length pre + S i)) post)%list.
Proof.
  rewrite imap_app. f_equal. simpl. by rewrite Nat.add_0_r.
Qed.

(** ** Walks in which every matching source resolves *)

#[local] Arguments build : simpl never.

(** The release that the walk appends for a source: none when the pattern
    does not match its name. *)
Definition found_version (m : SourceMapV3) (f : string) : option ReactVersion :=
  match regexp_exec SUPPORTED_PACKAGES f with
  | None => None
  | Some _ =>
      match matcher f m with
      | Normal versionEntry => Some versionEntry
      | Throw _ => None
      end
  end.

(** The map recorded for the release loads, is a document of the
    interface, and none of its sources, resolved against the name [f] of
    the source that it replaces, matches the pattern. *)
Definition recorded_for (f : string) (versionEntry : ReactVersion) : Prop :=
  exists sourcemap replacement,
    load (recorded_map_path versionEntry) = Normal sourcemap /\
    asSourceMapV3 sourcemap = Some replacement /\
    Forall unmatched (resolvedSources (trace_map replacement f)).

(** A source that the walk gets past: the pattern does not match its
    name, or the matcher finds its release and the map recorded for it. *)
Definition resolvable (m : SourceMapV3) (f : string) : Prop :=
  unmatched f \/
  (is_Some (regexp_exec SUPPORTED_PACKAGES f) /\
   exists versionEntry, matcher f m = Normal versionEntry /\ recorded_for f versionEntry).

Lemma found_version_unmatched (m : SourceMapV3) (f : string) :
  unmatched f -> found_version m f = None.
Proof. unfold unmatched, found_version. by intros ->. Qed.

Lemma found_version_matched (m : SourceMapV3) (f : string) (ve : ReactVersion) :
  is_Some (regexp_exec SUPPORTED_PACKAGES f) -> matcher f m = Normal ve ->
  found_version m f = Some ve.
Proof. unfold found_version. by intros [mp ->] ->. Qed.

Lemma build_unmatched (v : JSValue) (m : SourceMapV3) (options : Options) (fuel : nat)
    (map : TraceMap) (importer : string) (depth : nat) (w : World) :
  asSourceMapV3 v = Some m ->
  Forall unmatched (resolvedSources map) ->
  exists w', build resolveUri (S fuel) (the_loader v options) map importer depth w =
               Some (Normal (flat_tree map), w') /\
             reactVersions w' = reactVersions w.
Proof.
  intros Hm Hall. rewrite build_S, bind_run.
  destruct (children_unmatched v m options fuel map importer (depth + 1)
              (imap pair (resolvedSources map)) w Hm (imap_unmatched id _ Hall))
    as (w' & -> & Hw').
  by exists w'.
Qed.

Lemma child_resolved (v : JSValue) (m : SourceMapV3) (options : Options) (fuel : nat)
    (map : TraceMap) (importer : string) (depth i : nat) (f : string) (ve : ReactVersion)
    (w : World) :
  asSourceMapV3 v = Some m ->
  is_Some (regexp_exec SUPPORTED_PACKAGES f) ->
  matcher f m = Normal ve ->
  recorded_for f ve ->
  exists t w', child (S fuel) (the_loader v options) map importer depth (i, f) w =
                 Some (Normal t, w') /\
               reactVersions w' = (reactVersions w ++ [ve])%list.
Proof.
  intros Hm Hf Hve (sm & repl & Hload & Hrepl & Hnested).
  destruct (child_run v m options (S fuel) map importer depth i f w Hm) as (w1 & Hw1 & ->).
  rewrite (loader_outcome_matched m f Hf), Hve, Hload in *. simpl in *.
  rewrite bind_run, (new_TraceMap_typed sm repl f w1 Hrepl).
  destruct (build_unmatched v m options fuel (trace_map repl f) f depth w1 Hm Hnested)
    as (w2 & -> & Hw2).
  exists (flat_tree (trace_map repl f)), w2. split; [done|]. by rewrite Hw2.
Qed.

Lemma children_resolvable (v : JSValue) (m : SourceMapV3) (options : Options) (fuel : nat)
    (map : TraceMap) (importer : string) (depth : nat) (l : list (nat * string)) (w : World) :
  asSourceMapV3 v = Some m ->
  Forall (fun p => resolvable m p.2) l ->
  exists ts w', mapM (child (S fuel) (the_loader v options) map importer depth) l w =
                  Some (Normal ts, w') /\
                reactVersions w' = (reactVersions w ++ omap (found_version m) l.*2)%list.
Proof.
  intros Hm Hall. revert w. induction Hall as [|[i f] l Hf _ IH]; intros w.
  - exists [], w. split; [done|]. by rewrite app_nil_r.
  - rewrite mapM_cons_run. simpl in Hf. destruct Hf as [Hf|(Hf & ve & Hve & Hrec)].
    + destruct (child_run v m options (S fuel) map importer depth i f w Hm) as (w1 & Hw1 & ->).
      rewrite (loader_outcome_unmatched m f Hf) in *. simpl in *.
      destruct (IH w1) as (ts & w2 & -> & Hw2). exists (leaf map (i, f) :: ts), w2.
      split; [done|]. simpl. by rewrite (found_version_unmatched m f Hf), Hw2, Hw1, app_nil_r.
    + destruct (child_resolved v m options fuel map importer depth i f ve w Hm Hf Hve Hrec)
        as (t & w1 & -> & Hw1).
      destruct (IH w1) as (ts & w2 & -> & Hw2). exists (t :: ts), w2.
      split; [done|]. simpl. rewrite (found_version_matched m f ve Hf Hve), Hw2, Hw1.
      by rewrite <- app_assoc.
Qed.

Lemma imap_pair_snd (g : nat -> nat) (l : list string) :
  (imap (fun i => pair (g i)) l).*2 = l.
Proof.
  revert g. induction l as [|f l IH]; intros g; [done|]. simpl. f_equal. apply (IH (g ∘ S)).
Qed.

Lemma imap_resolvable (m : SourceMapV3) (g : nat -> nat) (l : list string) :
  Forall (resolvable m) l ->
  Forall (fun p : nat * string => resolvable m p.2) (imap (fun i => pair (g i)) l).
Proof.
  intros H. revert g. induction H as [|f l Hf _ IH]; intros g; [constructor|].
  simpl. constructor; [done|]. apply (IH (g ∘ S)).
Qed.

(** The releases end up in [reactVersions] in the order of the sources
    that they were found for. *)
Lemma rewrite_resolvable (fuel : nat) (v : JSValue) (m : SourceMapV3) (options : Options)
    (w : World) :
  asSourceMapV3 v = Some m ->
  Forall (resolvable m) (resolvedSources (trace_map m "")) ->
  exists tree w',
    rewrite (S (S fuel)) v options w =
      Some (Normal (result_of tree
                      (omap (found_version m) (resolvedSources (trace_map m "")))), w') /\
    reactVersions w' = omap (found_version m) (resolvedSources (trace_map m "")).
Proof.
  intros Hm Hall. rewrite (rewrite_run _ v m options w Hm), build_S, bind_run.
  destruct (children_resolvable v m options fuel (trace_map m "") "" (0 + 1)
              (imap pair (resolvedSources (trace_map m ""))) (fresh w) Hm
              (imap_resolvable m id _ Hall)) as (ts & w1 & -> & Hw1).
  rewrite (imap_pair_snd id) in Hw1. simpl in Hw1.
  exists (MapSource (trace_map m "") ts), (after_walk options w1).
  rewrite after_walk_reactVersions. simpl. by rewrite Hw1.
Qed.

Lemma rewrite_result (fuel : nat) (v : JSValue) (options : Options) (w w' : World)
    (r : RewriteSourcemapResult) :
  rewrite fuel v options w = Some (Normal r, w') ->
  reactVersion r = head (reactVersions w') /\
  (rewroteSourcemap r = true <-> reactVersions w' <> []).
Proof.
  intros Hrun. destruct (described_return _ _ _ _ _ _ Hrun) as [m Hm].
  rewrite (rewrite_run fuel v m options w Hm) in Hrun.
  destruct (build resolveUri fuel (the_loader v options) (trace_map m "") "" 0 (fresh w))
    as [[[tree|e] w1]|]; [|done..].
  injection Hrun as <- <-. rewrite after_walk_reactVersions. simpl. split; [done|].
  by destruct (reactVersions w1).
Qed.

(** C3, as the program has it.  A document has one source whose resolved
    name matches the pattern; the matcher finds that name at the position
    of the source, and the content there has a registered hash; the map
    recorded for the release loads and none of its sources matches the
    pattern.  Then the entry point returns, with [rewroteSourcemap] true
    and the registered release.  In general the release that a result
    reports is the first element of [reactVersions], the flag is true
    exactly when [reactVersions] is not empty, and [reactVersions] holds
    the releases in the order of the sources they were found for. *)
Theorem single_resolved_reference (fuel : nat) (v : JSValue) (m : SourceMapV3)
    (options : Options) (w : World) (pre post : list string) (f contents : string)
    (versionEntry : ReactVersion) :
  asSourceMapV3 v = Some m ->
  resolvedSources (trace_map m "") = (pre ++ f :: post)%list ->
  Forall unmatched pre -> Forall unmatched post ->
  is_Some (regexp_exec SUPPORTED_PACKAGES f) ->
  filenameIndex resolveUri f m = Z.of_nat (length pre) ->
  at_index (sourcesContent m) (Z.of_nat (length pre)) = Some contents ->
  contents <> "" ->
  registry !! sha256_hex contents = Some versionEntry ->
  recorded_for f versionEntry ->
  (exists out w',
     rewrite (S (S fuel)) v options w =
       Some (Normal {| outputSourcemap := out; rewroteSourcemap := true;
                       reactVersion := Some versionEntry |}, w') /\
     reactVersions w' = [versionEntry]) /\
  (forall fuel' v' options' w0 r w1,
     rewrite fuel' v' options' w0 = Some (Normal r, w1) ->
     reactVersion r = head (reactVersions w1) /\
     (rewroteSourcemap r = true <-> reactVersions w1 <> [])) /\
  (forall fuel' v' m' options' w0,
     asSourceMapV3 v' = Some m' ->
     Forall (resolvable m') (resolvedSources (trace_map m' "")) ->
     exists r w1,
       rewrite (S (S fuel')) v' options' w0 = Some (Normal r, w1) /\
       reactVersions w1 = omap (found_version m') (resolvedSources (trace_map m' ""))).
Proof.
  intros Hm Hrs Hpre Hpost Hf Hindex Hcontents Hne Hreg Hrec.
  pose proof (matcher_at_index resolveUri sha256_hex registry f m (length pre) contents
                versionEntry Hindex Hcontents Hne Hreg) as Hve.
  split; [|split].
  - assert (Forall (resolvable m) (resolvedSources (trace_map m ""))) as Hall.
    { rewrite Hrs. apply Forall_app. split; [by eapply Forall_impl; [exact Hpre|left]|].
      constructor; [right; eauto|by eapply Forall_impl; [exact Hpost|left]]. }
    destruct (rewrite_resolvable fuel v m options w Hm Hall) as (tree & w' & Hrun & Hw').
    assert (omap (found_version m) (resolvedSources (trace_map m "")) = [versionEntry]) as Hfound.
    { assert (forall l, Forall unmatched l -> omap (found_version m) l = []) as Hnone.
      { induction 1 as [|x l Hx _ IH]; [done|]. simpl.
        by rewrite (found_version_unmatched m x Hx). }
      rewrite Hrs, omap_app, (Hnone pre Hpre).
      change (omap (found_version m) (f :: post)) with
        (match found_version m f with
         | Some y => y :: omap (found_version m) post
         | None => omap (found_version m) post
         end).
      by rewrite (found_version_matched m f versionEntry Hf Hve), (Hnone post Hpost). }
    rewrite Hfound in Hrun, Hw'. by exists (traceMappings tree), w'.
  - intros fuel' v' options' w0 r w1. apply rewrite_result.
  - intros fuel' v' m' options' w0 Hm' Hall.
    destruct (rewrite_resolvable fuel' v' m' options' w0 Hm' Hall) as (tree & w1 & Hrun & Hw1).
    eauto.
Qed.

(** ** Documents without a matching source *)

Lemma rewrite_unmatched (fuel : nat) (v : JSValue) (m : SourceMapV3) (options : Options)
    (w : World) :
  asSourceMapV3 v = Some m ->
  Forall unmatched (resolvedSources (trace_map m "")) ->
  exists w', rewrite (S fuel) v options w =
               Some (Normal (result_of (flat_tree (trace_map m "")) []), w') /\
             reactVersions w' = [].
Proof.
  intros Hm Hall. rewrite (rewrite_run _ v m options w Hm).
  destruct (build_unmatched v m options fuel (trace_map m "") "" 0 (fresh w) Hm Hall)
    as (w1 & -> & Hw1).
  exists (after_walk options w1). rewrite after_walk_reactVersions, Hw1. by simpl.
Qed.

(** C4. When the entry point returns a result whose [rewroteSourcemap] is
    false, the result reports no release, and its output document is the
    one that the composition library makes of the input when it is given
    no replacement for any source: every source of the input is a leaf of
    the tree that is composed, and no recorded map takes part in it.  A
    document none of whose sources matches the pattern gets such a
    result. *)
Theorem no_version_no_replacement (fuel : nat) (v : JSValue) (options : Options)
    (w w' : World) (r : RewriteSourcemapResult) :
  rewrite fuel v options w = Some (Normal r, w') ->
  rewroteSourcemap r = false ->
  reactVersion r = None /\
  reactVersions w' = [] /\
  (forall w0, remapping resolveUri traceMappings 1 v no_replacement w0 =
                Some (Normal (outputSourcemap r), w0)) /\
  (forall fuel' v' m' options' w0,
     asSourceMapV3 v' = Some m' ->
     Forall unmatched (resolvedSources (trace_map m' "")) ->
     exists r' w1, rewrite (S fuel') v' options' w0 = Some (Normal r', w1) /\
                   rewroteSourcemap r' = false).
Proof.
  intros Hrun Hflag. destruct (described_return _ _ _ _ _ _ Hrun) as [m Hm].
  rewrite (rewrite_run fuel v m options w Hm) in Hrun.
  destruct (build resolveUri fuel (the_loader v options) (trace_map m "") "" 0 (fresh w))
    as [[[tree|e] w1]|] eqn:Hb; [|done..].
  injection Hrun as <- <-. simpl in Hflag.
  assert (reactVersions w1 = []) as Hnil.
  { destruct (reactVersions w1); [done|]. simpl in Hflag. done. }
  rewrite after_walk_reactVersions. simpl. rewrite Hnil. split; [done|]. split; [done|].
  split.
  - intros w0. rewrite (remapping_no_replacement v m 0 w0 Hm).
    by rewrite (build_flat v m options fuel _ _ _ _ _ _ Hm Hb Hnil).
  - intros fuel' v' m' options' w0 Hm' Hall.
    destruct (rewrite_unmatched fuel' v' m' options' w0 Hm' Hall) as (w2 & Hrun & _).
    by eexists _, w2.
Qed.

(** ** Walks that throw *)

(** A walk throws at the first source for which the loader throws, when
    the walk gets past the sources before it. *)
Lemma build_first_throw (v : JSValue) (m : SourceMapV3) (options : Options) (fuel : nat)
    (map : TraceMap) (importer : string) (depth : nat) (pre post : list string) (f : string)
    (w : World) (e : JSError) (pushed : list ReactVersion) :
  asSourceMapV3 v = Some m ->
  resolvedSources map = (pre ++ f :: post)%list ->
  Forall (resolvable m) pre ->
  loader_outcome m f f = (Throw e, pushed) ->
  exists w', build resolveUri (S (S fuel)) (the_loader v options) map importer depth w =
               Some (Throw e, w') /\
             reactVersions w' =
               (reactVersions w ++ omap (found_version m) pre ++ pushed)%list.
Proof.
  intros Hm Hrs Hpre Ho. rewrite build_S, bind_run, Hrs, imap_pair_app, mapM_app_run.
  destruct (children_resolvable v m options fuel map importer (depth + 1) (imap pair pre) w Hm
              (imap_resolvable m id pre Hpre)) as (ts & w1 & -> & Hw1).
  rewrite (imap_pair_snd id) in Hw1. rewrite mapM_cons_run.
  destruct (child_run v m options (S fuel) map importer (depth + 1) (length pre) f w1 Hm)
    as (w2 & Hw2 & ->).
  rewrite Ho in *. simpl in *. exists w2. split; [done|]. by rewrite Hw2, Hw1, app_assoc.
Qed.

(** C1, as the program has it: the claim's reference is not left
    unresolved.  Let the walk get past the sources before a source that
    matches the pattern, and let the matcher throw for that source (its
    name is not found in the source list, it has no content, or the hash
    of its content is not in the registry).  Nothing catches the error:
    the entry point throws it, and returns no result. *)
Theorem unresolved_reference_aborts (fuel : nat) (v : JSValue) (m : SourceMapV3)
    (options : Options) (w : World) (pre post : list string) (f : string) (e : JSError) :
  asSourceMapV3 v = Some m ->
  resolvedSources (trace_map m "") = (pre ++ f :: post)%list ->
  Forall (resolvable m) pre ->
  is_Some (regexp_exec SUPPORTED_PACKAGES f) ->
  matcher f m = Throw e ->
  exists w', rewrite (S (S fuel)) v options w = Some (Throw e, w') /\
             reactVersions w' = omap (found_version m) pre.
Proof.
  intros Hm Hrs Hpre Hf He. rewrite (rewrite_run _ v m options w Hm).
  assert (loader_outcome m f f = (Throw e, [])) as Ho
    by (by rewrite loader_outcome_matched, He).
  destruct (build_first_throw v m options fuel (trace_map m "") "" 0 pre post f (fresh w) e []
              Hm Hrs Hpre Ho) as (w' & -> & Hw').
  exists w'. by rewrite Hw', app_nil_r.
Qed.

(** The ways in which the map recorded for a release fails to load. *)
Definition cannot_load (filePath : string) (e : JSError) : Prop :=
  (fs !! filePath = None /\ e = Error ("Cannot find " +:+ filePath)) \/
  (exists text, fs !! filePath = Some text /\ JSON_parse text = None /\ e = SyntaxError) \/
  (exists text v, fs !! filePath = Some text /\ JSON_parse text = Some v /\
     isSourceMapV3 v = false /\ e = Error ("Invalid sourcemap: " +:+ filePath)).

Lemma load_throws (filePath : string) (e : JSError) :
  load filePath = Throw e <-> cannot_load filePath e.
Proof.
  unfold loadSourcemap, cannot_load. destruct (fs !! filePath) as [text|].
  - destruct (JSON_parse text) as [v|] eqn:Hp.
    + destruct (isSourceMapV3 v) eqn:Hv; simpl.
      * split; [done|]. intros [[? _]|[(t & [= <-] & ? & _)|(t & v' & [= <-] & ? & ? & _)]];
          congruence.
      * split.
        -- intros [= <-]. right. right. by exists text, v.
        -- intros [[? _]|[(t & [= <-] & ? & _)|(t & v' & [= <-] & ? & ? & ->)]]; congruence.
    + split.
      * intros [= <-]. right. left. by exists text.
      * intros [[? _]|[(t & _ & _ & ->)|(t & v' & [= <-] & ? & _)]]; congruence.
  - split.
    + intros [= <-]. by left.
    + intros [[_ ->]|[(t & ? & _)|(t & v' & ? & _)]]; congruence.
Qed.

(** C7. Let the walk get past the sources before a source that matches
    the pattern, let the matcher find the release of that source, and let
    the map recorded for that release fail to load (the file is missing,
    does not parse, or is not a version-3 sourcemap).  The error of the
    loader leaves the entry point: the call throws it and returns no
    result, with the release already in [reactVersions]. *)
Theorem registry_load_failure_aborts (fuel : nat) (v : JSValue) (m : SourceMapV3)
    (options : Options) (w : World) (pre post : list string) (f : string)
    (versionEntry : ReactVersion) (e : JSError) :
  asSourceMapV3 v = Some m ->
  resolvedSources (trace_map m "") = (pre ++ f :: post)%list ->
  Forall (resolvable m) pre ->
  is_Some (regexp_exec SUPPORTED_PACKAGES f) ->
  matcher f m = Normal versionEntry ->
  cannot_load (recorded_map_path versionEntry) e ->
  exists w', rewrite (S (S fuel)) v options w = Some (Throw e, w') /\
             reactVersions w' = (omap (found_version m) pre ++ [versionEntry])%list.
Proof.
  intros Hm Hrs Hpre Hf Hve He. apply load_throws in He.
  rewrite (rewrite_run _ v m options w Hm).
  assert (loader_outcome m f f = (Throw e, [versionEntry])) as Ho
    by (by rewrite loader_outcome_matched, Hve, He).
  destruct (build_first_throw v m options fuel (trace_map m "") "" 0 pre post f (fresh w) e
              [versionEntry] Hm Hrs Hpre Ho) as (w' & -> & Hw').
  exists w'. by rewrite Hw'.
Qed.

(** ** More fuel *)

(** A walk that ends within a bound ends the same way within a larger
    one. *)
Lemma build_more_fuel (ld : string -> LoaderContext -> M (option JSValue)) (fuel : nat) :
  forall map importer depth w x,
    build resolveUri fuel ld map importer depth w = Some x ->
    build resolveUri (S fuel) ld map importer depth w = Some x.
Proof.
  induction fuel as [|fuel IH]; intros map importer depth w x; [done|].
  rewrite (build_S (S fuel)), (build_S fuel), !bind_run.
  assert (forall l w y,
            mapM (child fuel ld map importer (depth + 1)) l w = Some y ->
            mapM (child (S fuel) ld map importer (depth + 1)) l w = Some y) as Hl.
  { induction l as [|[i f] l IHl]; intros w0 y; [done|]. rewrite !mapM_cons_run.
    assert (forall y, child fuel ld map importer (depth + 1) (i, f) w0 = Some y ->
                      child (S fuel) ld map importer (depth + 1) (i, f) w0 = Some y) as Hc.
    { intros y0. unfold child. rewrite !bind_run.
      cbn [source].
      destruct (ld f {| importer := importer; depth := depth + 1; source := f |} w0)
        as [[[[sm|]|e] w1]|]; [|done..]. rewrite !bind_run.
      destruct (new_TraceMap resolveUri sm f w1) as [[[tm|e] w2]|]; [|done..]. apply IH. }
    destruct (child fuel ld map importer (depth + 1) (i, f) w0) as [[[t|e] w1]|] eqn:Hch;
      [| |done]; rewrite (Hc _ eq_refl); [|done].
    destruct (mapM (child fuel ld map importer (depth + 1)) l w1) as [[[k|e] w2]|] eqn:Hk;
      [| |done]; by rewrite (IHl _ _ Hk). }
  destruct (mapM (child fuel ld map importer (depth + 1)) (imap pair (resolvedSources map)) w)
    as [y|] eqn:Hm; [|done]. by rewrite (Hl _ _ _ Hm).
Qed.

Lemma rewrite_more_fuel (fuel : nat) (v : JSValue) (options : Options) (w : World)
    (x : Completion RewriteSourcemapResult * World) :
  rewrite fuel v options w = Some x -> rewrite (S fuel) v options w = Some x.
Proof.
  destruct (asSourceMapV3 v) as [m|] eqn:Hm.
  - rewrite !(rewrite_run _ v m options w Hm).
    destruct (build resolveUri fuel (the_loader v options) (trace_map m "") "" 0 (fresh w))
      as [y|] eqn:Hb; [|done]. by rewrite (build_more_fuel _ _ _ _ _ _ _ Hb).
  - unfold maybeRewriteSourcemapWithReactProd. destruct (isSourceMapV3 v); [|done].
    cbn [negb]. rewrite !bind_run. unfold fresh_reactVersions.
    rewrite !bind_run. unfold remapping. by rewrite !bind_run, !new_TraceMap_run, Hm.
Qed.

(** ** Two runs side by side *)

(** Two runs end alike: both use up the bound, or both end with the same
    completion and the same [reactVersions]. *)
Definition same_outcome {A} (x y : option (Completion A * World)) : Prop :=
  match x, y with
  | Some (c1, w1), Some (c2, w2) => c1 = c2 /\ reactVersions w1 = reactVersions w2
  | None, None => True
  | _, _ => False
  end.

(** Two computations that end alike from worlds with the same
    [reactVersions], whatever is on the console. *)
Definition alike {A} (m1 m2 : M A) : Prop :=
  forall w1 w2, reactVersions w1 = reactVersions w2 -> same_outcome (m1 w1) (m2 w2).

Lemma alike_bind {A B} (m1 m2 : M A) (f1 f2 : A -> M B) :
  alike m1 m2 -> (forall a, alike (f1 a) (f2 a)) -> alike (m1 ≫= f1) (m2 ≫= f2).
Proof.
  intros Hm Hf w1 w2 Hw. rewrite !bind_run. specialize (Hm w1 w2 Hw).
  destruct (m1 w1) as [[[a1|e1] w1']|], (m2 w2) as [[[a2|e2] w2']|]; simpl in Hm; try done;
    destruct Hm as [Heq Hw']; try discriminate Heq.
  - injection Heq as ->. by apply Hf.
  - by injection Heq as ->.
Qed.

Lemma alike_ret {A} (a : A) : alike (mret a) (mret a).
Proof. by intros w1 w2 Hw. Qed.

Lemma alike_mapM {A B} (f1 f2 : A -> M B) (l : list A) :
  (forall x, alike (f1 x) (f2 x)) -> alike (mapM f1 l) (mapM f2 l).
Proof.
  intros Hf. induction l as [|x l IH]; [apply alike_ret|].
  simpl. apply alike_bind; [apply Hf|]. intros y.
  apply alike_bind; [apply IH|]. intros k. apply alike_ret.
Qed.

Lemma alike_loader (v : JSValue) (m : SourceMapV3) (o1 o2 : Options) (file : string)
    (ctx : LoaderContext) :
  asSourceMapV3 v = Some m ->
  alike (the_loader v o1 file ctx) (the_loader v o2 file ctx).
Proof.
  intros Hm w1 w2 Hw.
  destruct (loader_run v m o1 file ctx w1 Hm) as (w1' & -> & Hw1).
  destruct (loader_run v m o2 file ctx w2 Hm) as (w2' & -> & Hw2).
  simpl. split; [done|]. by rewrite Hw1, Hw2, Hw.
Qed.

Lemma alike_new_TraceMap (v : JSValue) (mapUrl : string) :
  alike (new_TraceMap resolveUri v mapUrl) (new_TraceMap resolveUri v mapUrl).
Proof. intros w1 w2 Hw. rewrite !new_TraceMap_run. by destruct (asSourceMapV3 v). Qed.

Lemma alike_build (v : JSValue) (m : SourceMapV3) (o1 o2 : Options) (fuel : nat) :
  asSourceMapV3 v = Some m ->
  forall map importer depth,
    alike (build resolveUri fuel (the_loader v o1) map importer depth)
          (build resolveUri fuel (the_loader v o2) map importer depth).
Proof.
  intros Hm. induction fuel as [|fuel IH]; intros map importer depth; [by intros w1 w2 _|].
  rewrite !build_S. apply alike_bind; [|intros; apply alike_ret].
  apply alike_mapM. intros [i f]. unfold child.
  apply alike_bind; [by apply alike_loader with m|].
  intros [sm|]; [|apply alike_ret].
  apply alike_bind; [apply alike_new_TraceMap|]. intros tm. apply IH.
Qed.

(** C10. The completion of the entry point (the result it returns, or
    the error it throws) is a function of the document and of what the
    program reads (registry, disk): it is the same for the two values of
    [verbose], and whatever is on the console and in the array of an
    earlier call when the call starts. *)
Theorem rewrite_deterministic (fuel : nat) (v : JSValue) (o1 o2 : Options) (w1 w2 : World) :
  fst <$> rewrite fuel v o1 w1 = fst <$> rewrite fuel v o2 w2.
Proof.
  destruct (asSourceMapV3 v) as [m|] eqn:Hm.
  - rewrite !(rewrite_run fuel v m _ _ Hm).
    pose proof (alike_build v m o1 o2 fuel Hm (trace_map m "") "" 0 (fresh w1) (fresh w2)
                  eq_refl) as Hb.
    destruct (build resolveUri fuel (the_loader v o1) (trace_map m "") "" 0 (fresh w1))
      as [[[t1|e1] w1']|],
      (build resolveUri fuel (the_loader v o2) (trace_map m "") "" 0 (fresh w2))
      as [[[t2|e2] w2']|]; simpl in Hb; try done;
      destruct Hb as [Heq Hw]; try discriminate Heq; [|by injection Heq as ->].
    injection Heq as ->. simpl. by rewrite Hw.
  - unfold maybeRewriteSourcemapWithReactProd. destruct (isSourceMapV3 v); [|done].
    cbn [negb]. rewrite !bind_run. unfold fresh_reactVersions.
    rewrite !bind_run. unfold remapping. by rewrite !bind_run, !new_TraceMap_run, Hm.
Qed.

(** ** The leaves of a walk *)

(** A name that the resolver has produced. *)
Definition resolved_name (n : string) : Prop := exists x b, n = resolveUri x b.

Lemma resolve_resolved (input : string) (base : option string) :
  resolved_name (resolve resolveUri input base).
Proof. unfold resolve, resolved_name. eauto. Qed.

Lemma trace_map_resolved (m : SourceMapV3) (mapUrl : string) :
  Forall resolved_name (resolvedSources (trace_map m mapUrl)).
Proof. simpl. apply Forall_fmap, Forall_true. intros s. apply resolve_resolved. Qed.

(** Every leaf of a tree that the walk returns has a name that the
    pattern does not match. *)
Lemma build_leaves (v : JSValue) (m : SourceMapV3) (options : Options) (fuel : nat) :
  asSourceMapV3 v = Some m ->
  forall map importer depth w t w',
    Forall resolved_name (resolvedSources map) ->
    build resolveUri fuel (the_loader v options) map importer depth w = Some (Normal t, w') ->
    Forall (fun n => unmatched n /\ resolved_name n) (leaf_names t).
Proof.
  intros Hm. induction fuel as [|fuel IH]; intros map importer depth w t w' Hres; [done|].
  rewrite build_S. intros H. apply bind_inv in H as ([ts|e] & w1 & Hch & H); [|by destruct H].
  injection H as <- <-. simpl.
  assert (Forall (fun p : nat * string => resolved_name p.2) (imap pair (resolvedSources map)))
    as Hl.
  { apply Forall_forall. intros [i f] Hin. apply (list_elem_of_fmap_2 snd) in Hin.
    rewrite (imap_pair_snd id) in Hin. simpl. by eapply Forall_forall in Hres. }
  revert w ts w1 Hch. induction Hl as [|[i f] l Hf _ IHl]; intros w ts w1.
  - rewrite mapM_nil_run. intros [= <- <-]. constructor.
  - rewrite mapM_cons_run.
    destruct (child fuel (the_loader v options) map importer (depth + 1) (i, f) w)
      as [[[t|e] w2]|] eqn:Hc; [|done..].
    destruct (mapM (child fuel (the_loader v options) map importer (depth + 1)) l w2)
      as [[[k|e] w3]|] eqn:Hk; [|done..].
    intros [= <- <-]. simpl. apply Forall_app. split; [|by eapply IHl].
    destruct (child_run v m options fuel map importer (depth + 1) i f w Hm) as (w4 & _ & Hrun).
    rewrite Hrun in Hc. clear Hrun.
    destruct (loader_outcome_cases m f) as [[Hu Ho]|[_ [(e & _ & Ho)|[(ve & e & _ & _ & Ho)|
      (ve & sm & _ & _ & Ho)]]]]; rewrite Ho in Hc; simpl in Hc; [|done..|].
    + injection Hc as <- <-. simpl. by repeat constructor.
    + apply bind_inv in Hc as (c & w5 & Htm & Hc). rewrite new_TraceMap_run in Htm.
      destruct (asSourceMapV3 sm) as [repl|]; [|done]. injection Htm as <- <-.
      eapply IH; [|exact Hc]. apply (trace_map_resolved repl f).
Qed.

Lemma as_array_string (l : list string) :
  as_array as_string (JArray (of_string <$> l)) = Some l.
Proof.
  unfold as_array. apply mapM_Some_2, Forall2_fmap_l, Forall_Forall2_diag, Forall_true.
  by intros x.
Qed.

Lemma as_array_nullable (l : list (option string)) :
  as_array as_nullable (JArray (of_nullable <$> l)) = Some l.
Proof.
  unfold as_array. apply mapM_Some_2, Forall2_fmap_l, Forall_Forall2_diag, Forall_true.
  by intros [x|].
Qed.

(** A document of the interface is the document that its value is read
    as. *)
Lemma asSourceMapV3_toJS (m : SourceMapV3) : asSourceMapV3 (toJS m) = Some m.
Proof.
  destruct m as [f n r s c mp]. unfold asSourceMapV3.
  assert (isSourceMapV3 (toJS (Build_SourceMapV3 f n r s c mp)) = true) as ->
    by (by destruct f, r, c).
  cbn [negb].
  assert (get (toJS (Build_SourceMapV3 f n r s c mp)) "names" = JArray (of_string <$> n)) as ->
    by (by destruct f, r, c).
  assert (get (toJS (Build_SourceMapV3 f n r s c mp)) "sources" = JArray (of_nullable <$> s))
    as -> by (by destruct f, r, c).
  assert (get (toJS (Build_SourceMapV3 f n r s c mp)) "mappings" = mp) as ->
    by (by destruct f, r, c).
  assert (js_in "mappings" (toJS (Build_SourceMapV3 f n r s c mp)) = true) as ->
    by (by destruct f, r, c).
  rewrite as_array_string, as_array_nullable.
  destruct f as [f|], r as [r|], c as [c|]; cbn -[as_array];
    rewrite ?as_array_nullable; reflexivity.
Qed.

(** C6. Let the composition library name, as the sources of the document
    it returns, leaves of the tree it is given, and give that document no
    source root; let the resolver leave the empty name and the names it
    has produced as they are.  Then for a document that the entry point
    has returned, a second call on that document returns too, with
    [rewroteSourcemap] false, no release, and an output composed without
    any replacement. *)
Theorem second_rewrite_finds_nothing (fuel fuel' : nat) (v : JSValue) (options options' : Options)
    (w w' w2 : World) (r : RewriteSourcemapResult) :
  (forall tree, Forall (fun s => exists n, s = Some n /\ n ∈ leaf_names tree)
                  (sources (traceMappings tree))) ->
  (forall tree, sourceRoot (traceMappings tree) = None) ->
  resolveUri "" (Some "") = "" ->
  (forall x b, resolveUri (resolveUri x b) (Some "") = resolveUri x b) ->
  rewrite fuel v options w = Some (Normal r, w') ->
  exists w2',
    rewrite (S fuel') (toJS (outputSourcemap r)) options' w2 =
      Some (Normal {| outputSourcemap :=
                        traceMappings (flat_tree (trace_map (outputSourcemap r) ""));
                      rewroteSourcemap := false;
                      reactVersion := None |}, w2') /\
    reactVersions w2' = [].
Proof.
  intros Hsources Hroot Hempty Hidem Hrun.
  destruct (described_return _ _ _ _ _ _ Hrun) as [m Hm].
  rewrite (rewrite_run fuel v m options w Hm) in Hrun.
  destruct (build resolveUri fuel (the_loader v options) (trace_map m "") "" 0 (fresh w))
    as [[[tree|e] w1]|] eqn:Hb; [|done..].
  injection Hrun as <- <-. simpl.
  pose proof (build_leaves v m options fuel Hm _ _ _ _ _ _ (trace_map_resolved m "") Hb)
    as Hleaves.
  set (out := traceMappings tree).
  assert (Forall unmatched (resolvedSources (trace_map out ""))) as Hun.
  { simpl. unfold out. rewrite Hroot. simpl.
    apply Forall_fmap. eapply Forall_impl; [apply (Hsources tree)|].
    intros s (n & -> & Hin). simpl.
    pose proof (proj1 (Forall_forall _ _) Hleaves n Hin) as [Hu (x & b & ->)].
    unfold resolve. simpl. by rewrite Hempty, Hidem. }
  rewrite (rewrite_run (S fuel') _ out options' w2 (asSourceMapV3_toJS out)).
  destruct (build_unmatched (toJS out) out options' fuel' (trace_map out "") "" 0 (fresh w2)
              (asSourceMapV3_toJS out) Hun) as (w3 & -> & Hw3).
  exists (after_walk options' w3). rewrite after_walk_reactVersions, Hw3. by simpl.
Qed.

(** ** What a walk leaves behind *)

(** A release that the matcher has returned for a name that the pattern
    matches. *)
Definition matched_release (m : SourceMapV3) (versionEntry : ReactVersion) : Prop :=
  exists f, is_Some (regexp_exec SUPPORTED_PACKAGES f) /\ matcher f m = Normal versionEntry.

(** A release whose recorded map loads. *)
Definition loaded_release (versionEntry : ReactVersion) : Prop :=
  exists sourcemap, load (recorded_map_path versionEntry) = Normal sourcemap.

(** The errors that leave a walk: an error of the matcher, or an error of
    the loading of the map recorded for a release that the matcher
    found. *)
Definition walk_error (m : SourceMapV3) (e : JSError) : Prop :=
  (exists f, is_Some (regexp_exec SUPPORTED_PACKAGES f) /\ matcher f m = Throw e) \/
  (exists versionEntry, matched_release m versionEntry /\
     load (recorded_map_path versionEntry) = Throw e).

(** From [w] to [w'] the walk has appended releases that the matcher
    found; when it has completed normally the recorded map of each of them
    has loaded, and when it has thrown, the error is a [walk_error]. *)
Definition walk_post {A} (m : SourceMapV3) (w : World) (c : Completion A) (w' : World) : Prop :=
  exists extra,
    reactVersions w' = (reactVersions w ++ extra)%list /\
    Forall (matched_release m) extra /\
    match c with
    | Normal _ => Forall loaded_release extra
    | Throw e => walk_error m e
    end.

Lemma walk_post_mapM {A B} (m : SourceMapV3) (f : A -> M B) (l : list A) :
  (forall x w c w', f x w = Some (c, w') -> walk_post m w c w') ->
  forall w c w', mapM f l w = Some (c, w') -> walk_post m w c w'.
Proof.
  intros Hf. induction l as [|x l IH]; intros w c w'.
  - rewrite mapM_nil_run. intros [= <- <-]. exists []. by rewrite app_nil_r.
  - rewrite mapM_cons_run. destruct (f x w) as [[[y|e] w1]|] eqn:Hx; [| |done].
    + destruct (Hf _ _ _ _ Hx) as (extra1 & Hw1 & Hm1 & Hl1).
      destruct (mapM f l w1) as [[[k|e] w2]|] eqn:Hl; [| |done]; intros [= <- <-];
        destruct (IH _ _ _ Hl) as (extra2 & Hw2 & Hm2 & Hl2);
        exists (extra1 ++ extra2)%list; rewrite Hw2, Hw1, app_assoc;
        (split; [done|]); (split; [by apply Forall_app|]); [by apply Forall_app|done].
    + intros [= <- <-]. destruct (Hf _ _ _ _ Hx) as (extra1 & Hw1 & Hm1 & Hl1).
      by exists extra1.
Qed.

Lemma walk_post_build (v : JSValue) (m : SourceMapV3) (options : Options) (fuel : nat) :
  asSourceMapV3 v = Some m ->
  forall map importer depth w c w',
    build resolveUri fuel (the_loader v options) map importer depth w = Some (c, w') ->
    walk_post m w c w'.
Proof.
  intros Hm. induction fuel as [|fuel IH]; intros map importer depth w c w'; [done|].
  rewrite build_S. intros H. apply bind_inv in H as (c1 & w1 & Hch & H).
  assert (walk_post m w c1 w1) as Hpost.
  { eapply walk_post_mapM; [|exact Hch]. intros [i f] w0 c0 w0' Hx.
    destruct (child_run v m options fuel map importer (depth + 1) i f w0 Hm) as (w2 & Hw2 & Hrun).
    rewrite Hrun in Hx. clear Hrun.
    destruct (loader_outcome_cases m f) as [[Hu Ho]|[Hf [(e & He & Ho)|[(ve & e & Hve & He & Ho)|
      (ve & sm & Hve & Hsm & Ho)]]]]; rewrite Ho in Hx, Hw2; simpl in Hx, Hw2.
    - injection Hx as <- <-. by exists [].
    - injection Hx as <- <-. exists []. split; [done|]. split; [done|]. left. eauto.
    - injection Hx as <- <-. exists [ve]. split; [done|]. split; [repeat constructor; by exists f|].
      right. exists ve. split; [by exists f|done].
    - apply bind_inv in Hx as (c3 & w3 & Htm & Hx). rewrite new_TraceMap_run in Htm.
      destruct (asSourceMapV3 sm); [|done]. injection Htm as <- <-.
      destruct (IH _ _ _ _ _ _ Hx) as (extra & Hw & Hma & Hl).
      exists (ve :: extra). rewrite Hw, Hw2, <- app_assoc. split; [done|].
      split; [constructor; [by exists f|done]|].
      destruct c0; [|done]. constructor; [by exists sm|done]. }
  destruct c1 as [children|e]; [by injection H as <- <-|by destruct H as [-> ->]].
Qed.

(** The same for a call of the entry point: the releases in
    [reactVersions] at its end, and the error when it throws. *)
Lemma walk_post_rewrite (fuel : nat) (v : JSValue) (m : SourceMapV3) (options : Options)
    (w w' : World) (c : Completion RewriteSourcemapResult) :
  asSourceMapV3 v = Some m ->
  rewrite fuel v options w = Some (c, w') ->
  Forall (matched_release m) (reactVersions w') /\
  match c with
  | Normal r => Forall loaded_release (reactVersions w') /\
                reactVersion r = head (reactVersions w')
  | Throw e => walk_error m e
  end.
Proof.
  intros Hm. rewrite (rewrite_run fuel v m options w Hm).
  destruct (build resolveUri fuel (the_loader v options) (trace_map m "") "" 0 (fresh w))
    as [[[tree|e] w1]|] eqn:Hb; [| |done]; intros [= <- <-];
    destruct (walk_post_build v m options fuel Hm _ _ _ _ _ _ Hb) as (extra & Hw & Hma & Hl);
    simpl in Hw; rewrite ?after_walk_reactVersions, Hw; by repeat split.
Qed.

Lemma matcher_throws_message (f : string) (m : SourceMapV3) (e : JSError) :
  matcher f m = Throw e -> exists rest, e = Error ("Cannot find " +:+ rest).
Proof.
  unfold findMatchingReactDOMVersion.
  destruct (_ =? _)%Z; [intros [= <-]; by eexists|].
  destruct (at_index _ _) as [contents|]; [|intros [= <-]; by eexists].
  destruct (negb (truthy contents)); [intros [= <-]; by eexists|].
  destruct (registry !! _); [done|intros [= <-]; by eexists].
Qed.

Lemma load_throws_message (filePath : string) (e : JSError) :
  load filePath = Throw e ->
  e = SyntaxError \/
  exists rest, e = Error ("Cannot find " +:+ rest) \/ e = Error ("Invalid sourcemap" +:+ rest).
Proof.
  intros H. apply load_throws in H as [[_ ->]|[(t & _ & _ & ->)|(t & v & _ & _ & _ & ->)]].
  - right. exists filePath. by left.
  - by left.
  - right. exists (": " +:+ filePath). by right.
Qed.

(** X1. The check that the callback makes of the map it has loaded never
    fires: whatever a call of the entry point throws, it is not the error
    [Failed to load expected sourcemap ...], because [loadSourcemap] has
    thrown before for a file that is missing or that does not hold a
    value that passes the validation. *)
Theorem expected_sourcemap_check_never_fires (fuel : nat) (v : JSValue) (options : Options)
    (w w' : World) (e : JSError) (rest : string) :
  rewrite fuel v options w = Some (Throw e, w') ->
  e <> Error ("Failed to load expected sourcemap for " +:+ rest).
Proof.
  intros Hrun.
  assert (e = SyntaxError \/
          exists rest, e = Error ("Cannot find " +:+ rest) \/
                       e = Error ("Invalid sourcemap" +:+ rest)) as H.
  { destruct (asSourceMapV3 v) as [m|] eqn:Hm.
    - destruct (walk_post_rewrite fuel v m options w w' _ Hm Hrun)
        as (_ & [(f & _ & He)|(ve & _ & He)]).
      + right. destruct (matcher_throws_message _ _ _ He) as [rest' ->].
        exists rest'. by left.
      + exact (load_throws_message _ _ He).
    - revert Hrun. unfold maybeRewriteSourcemapWithReactProd.
      destruct (isSourceMapV3 v); cbn [negb].
      + rewrite bind_run. unfold fresh_reactVersions. rewrite bind_run. unfold remapping.
        by rewrite bind_run, new_TraceMap_run, Hm.
      + intros [= <- <-]. right. exists "". by right. }
  intros ->. destruct H as [H|(r & [H|H])]; discriminate H.
Qed.

(** X2. Every release in [reactVersions] when a call ends, and so the one
    a result reports, is an entry of the registry under the hash of a
    non-empty content of the input document, the content at the position
    that the matcher selects for a name that the pattern matches. *)
Theorem reported_release_is_registered (fuel : nat) (v : JSValue) (m : SourceMapV3)
    (options : Options) (w w' : World) (c : Completion RewriteSourcemapResult) :
  asSourceMapV3 v = Some m ->
  rewrite fuel v options w = Some (c, w') ->
  let registered versionEntry :=
    exists f contents,
      is_Some (regexp_exec SUPPORTED_PACKAGES f) /\
      at_index (sourcesContent m) (filenameIndex resolveUri f m) = Some contents /\
      contents <> "" /\
      registry !! sha256_hex contents = Some versionEntry in
  Forall registered (reactVersions w') /\
  forall r versionEntry, c = Normal r -> reactVersion r = Some versionEntry ->
    registered versionEntry.
Proof.
  intros Hm Hrun registered.
  destruct (walk_post_rewrite fuel v m options w w' c Hm Hrun) as (Hall & Hc).
  assert (Forall registered (reactVersions w')) as Hreg.
  { eapply Forall_impl; [exact Hall|]. intros ve (f & Hf & Hve).
    apply matcher_resolved in Hve as (_ & contents & H1 & H2 & H3). by exists f, contents. }
  split; [done|]. intros r ve -> Hr. destruct Hc as [_ Hhead]. rewrite Hhead in Hr.
  destruct (reactVersions w') as [|ve' l]; [done|]. injection Hr as ->.
  by apply Forall_cons in Hreg as [? _].
Qed.

(** X3. When the entry point returns a result, the map recorded for each
    release in [reactVersions] has loaded and passes the validation. *)
Theorem returned_releases_loaded (fuel : nat) (v : JSValue) (options : Options) (w w' : World)
    (r : RewriteSourcemapResult) :
  rewrite fuel v options w = Some (Normal r, w') ->
  Forall (fun versionEntry =>
            exists sourcemap, load (recorded_map_path versionEntry) = Normal sourcemap /\
                              isSourceMapV3 sourcemap = true)
    (reactVersions w').
Proof.
  intros Hrun. destruct (described_return _ _ _ _ _ _ Hrun) as [m Hm].
  destruct (walk_post_rewrite fuel v m options w w' _ Hm Hrun) as (_ & Hall & _).
  eapply Forall_impl; [exact Hall|]. intros ve [sm Hsm]. exists sm. split; [done|].
  by apply loadSourcemap_valid in Hsm as [? _].
Qed.

(** ** What a call prints *)

(** A line that the walk and the entry point print: its first argument is
    a string that starts with [Skipping sourcemap] or with [Found]. *)
Definition walk_log (args : list LogArg) : Prop :=
  exists s rest t, args = LStr s :: rest /\
    (s = "Skipping sourcemap " +:+ t \/ s = "Found " +:+ t).

(** From [w] to [w'] only such lines have been printed, and none when
    [verbose] is off. *)
Definition console_post (options : Options) (w w' : World) : Prop :=
  exists logs,
    console w' = (console w ++ logs)%list /\
    Forall walk_log logs /\
    (verbose_on options = false -> logs = []).

Lemma walk_log_found (t : string) (rest : list LogArg) :
  walk_log (LStr ("Found " +:+ t) :: rest).
Proof. exists ("Found " +:+ t), rest, t. split; [done|by right]. Qed.

Lemma walk_log_skipping (t : string) (rest : list LogArg) :
  walk_log (LStr ("Skipping sourcemap " +:+ t) :: rest).
Proof. exists ("Skipping sourcemap " +:+ t), rest, t. split; [done|by left]. Qed.

Lemma console_post_refl (options : Options) (w w' : World) :
  console w' = console w -> console_post options w w'.
Proof. intros H. exists []. by rewrite app_nil_r. Qed.

Lemma console_post_trans (options : Options) (w1 w2 w3 : World) :
  console_post options w1 w2 -> console_post options w2 w3 -> console_post options w1 w3.
Proof.
  intros (l1 & H1 & Hl1 & Hq1) (l2 & H2 & Hl2 & Hq2). exists (l1 ++ l2)%list.
  rewrite H2, H1, app_assoc. split; [done|]. split; [by apply Forall_app|].
  intros Hv. by rewrite Hq1, Hq2.
Qed.

Lemma console_post_when (options : Options) (args : list LogArg) (w : World) :
  walk_log args ->
  exists w', when (verbose_on options) (log args) w = Some (Normal (), w') /\
             reactVersions w' = reactVersions w /\ console_post options w w'.
Proof.
  intros Hargs. destruct (verbose_on options) eqn:Hv.
  - eexists. split; [reflexivity|]. split; [done|]. exists [args]. simpl.
    split; [done|]. split; [by repeat constructor|]. by rewrite Hv.
  - exists w. split; [done|]. split; [done|]. by apply console_post_refl.
Qed.

Lemma loader_console (v : JSValue) (m : SourceMapV3) (options : Options) (file : string)
    (ctx : LoaderContext) (w w' : World) (c : Completion (option JSValue)) :
  asSourceMapV3 v = Some m ->
  the_loader v options file ctx w = Some (c, w') ->
  console_post options w w'.
Proof.
  intros Hm. unfold loader.
  destruct (regexp_exec SUPPORTED_PACKAGES (source ctx)) as [mp|].
  - rewrite bind_run.
    destruct (console_post_when options
      [LStr ("Found " +:+ join_comma mp +:+ " in file:"); LCtx ctx] w
      (walk_log_found _ _)) as (w1 & -> & _ & Hc1).
    rewrite Hm, bind_run. unfold fmap, M_fmap. rewrite bind_run. unfold lift at 1.
    destruct (matcher file m) as [ve|e]; simpl; [|by intros [= <- <-]].
    unfold push at 1. rewrite !bind_run. simpl.
    match goal with |- context [when ?b (log ?a) ?w0] =>
      destruct (console_post_when options a w0 (walk_log_found _ _))
        as (w2 & -> & _ & Hc2) end.
    assert (console_post options w w2) as Hc
      by (eapply console_post_trans; [exact Hc1|exact Hc2]).
    unfold loadExistingSourcemap. rewrite !bind_run. simpl. unfold lift.
    destruct (load _) as [sm|e] eqn:Hload; [|by intros [= <- <-]].
    destruct (loadSourcemap_valid _ _ Hload) as [-> ->]. simpl. by intros [= <- <-].
  - rewrite bind_run.
    match goal with |- context [when ?b (log ?a) ?w0] =>
      destruct (console_post_when options a w0 (walk_log_skipping _ _))
        as (w1 & -> & _ & Hc1) end.
    by intros [= <- <-].
Qed.

Lemma console_post_mapM {A B} (options : Options) (f : A -> M B) (l : list A) :
  (forall x w c w', f x w = Some (c, w') -> console_post options w w') ->
  forall w c w', mapM f l w = Some (c, w') -> console_post options w w'.
Proof.
  intros Hf. induction l as [|x l IH]; intros w c w'.
  - rewrite mapM_nil_run. intros [= <- <-]. by apply console_post_refl.
  - rewrite mapM_cons_run. destruct (f x w) as [[[y|e] w1]|] eqn:Hx; [| |done].
    + destruct (mapM f l w1) as [[[k|e] w2]|] eqn:Hl; [| |done]; intros [= <- <-];
        (eapply console_post_trans; [by eapply Hf|by eapply IH]).
    + intros [= <- <-]. by eapply Hf.
Qed.

Lemma console_post_build (v : JSValue) (m : SourceMapV3) (options : Options) (fuel : nat) :
  asSourceMapV3 v = Some m ->
  forall map importer depth w c w',
    build resolveUri fuel (the_loader v options) map importer depth w = Some (c, w') ->
    console_post options w w'.
Proof.
  intros Hm. induction fuel as [|fuel IH]; intros map importer depth w c w'; [done|].
  rewrite build_S. intros H. apply bind_inv in H as (c1 & w1 & Hch & H).
  assert (console_post options w w1) as Hpost.
  { eapply console_post_mapM; [|exact Hch]. intros [i f] w0 c0 w0'. unfold child.
    intros Hx. apply bind_inv in Hx as (c2 & w2 & Hld & Hx).
    pose proof (loader_console _ _ _ _ _ _ _ _ Hm Hld) as Hc2.
    destruct c2 as [[sm|]|e].
    - apply bind_inv in Hx as (c3 & w3 & Htm & Hx). rewrite new_TraceMap_run in Htm.
      destruct (asSourceMapV3 sm); [|done]. injection Htm as <- <-.
      eapply console_post_trans; [exact Hc2|]. by eapply IH.
    - by injection Hx as <- <-.
    - by destruct Hx as [_ ->]. }
  destruct c1 as [children|e]; [by injection H as <- <-|by destruct H as [_ ->]].
Qed.

Lemma console_post_rewrite (fuel : nat) (v : JSValue) (options : Options) (w w' : World)
    (c : Completion RewriteSourcemapResult) :
  rewrite fuel v options w = Some (c, w') -> console_post options w w'.
Proof.
  destruct (asSourceMapV3 v) as [m|] eqn:Hm.
  - rewrite (rewrite_run fuel v m options w Hm).
    destruct (build resolveUri fuel (the_loader v options) (trace_map m "") "" 0 (fresh w))
      as [[[tree|e] w1]|] eqn:Hb; [| |done]; intros [= <- <-];
      pose proof (console_post_build v m options fuel Hm _ _ _ _ _ _ Hb) as Hc;
      (eapply console_post_trans; [apply (console_post_refl options w (fresh w)); done|]);
      [|done].
    eapply console_post_trans; [exact Hc|]. unfold after_walk.
    destruct (1 <? length (reactVersions w1))%nat; simpl; [|by apply console_post_refl].
    destruct (verbose_on options) eqn:Hv; [|by apply console_post_refl].
    eexists [_]. simpl. split; [done|]. split; [|by rewrite Hv].
    repeat constructor. apply (walk_log_found "multiple React versions:").
  - unfold maybeRewriteSourcemapWithReactProd. destruct (isSourceMapV3 v); cbn [negb].
    + rewrite bind_run. unfold fresh_reactVersions. rewrite bind_run. unfold remapping.
      by rewrite bind_run, new_TraceMap_run, Hm.
    + intros [= <- <-]. by apply console_post_refl.
Qed.

(** X4. A call of the entry point with [verbose] off (false or absent)
    prints nothing, however it ends. *)
Theorem quiet_without_verbose (fuel : nat) (v : JSValue) (options : Options) (w w' : World)
    (c : Completion RewriteSourcemapResult) :
  verbose_on options = false ->
  rewrite fuel v options w = Some (c, w') ->
  console w' = console w.
Proof.
  intros Hv Hrun. destruct (console_post_rewrite _ _ _ _ _ _ Hrun) as (logs & -> & _ & Hq).
  by rewrite (Hq Hv), app_nil_r.
Qed.

(** X5. Whatever [verbose] is, every line that a call prints starts with
    [Skipping sourcemap] or with [Found]: the path that a recorded map is
    loaded from is never printed ([loadExistingSourcemap] is called
    without the options), and neither is the line of the branch for a
    release that could not be resolved. *)
Theorem printed_lines (fuel : nat) (v : JSValue) (options : Options) (w w' : World)
    (c : Completion RewriteSourcemapResult) :
  rewrite fuel v options w = Some (c, w') ->
  exists logs,
    console w' = (console w ++ logs)%list /\
    Forall walk_log logs /\
    forall args t, args ∈ logs ->
      head args <> Some (LStr "Loading sourcemap from: ") /\
      head args <> Some (LStr ("Could not resolve sourcemaps for " +:+ t)).
Proof.
  intros Hrun. destruct (console_post_rewrite _ _ _ _ _ _ Hrun) as (logs & Hc & Hl & _).
  exists logs. split; [done|]. split; [done|]. intros args t Hin.
  pose proof (proj1 (Forall_forall _ _) Hl args Hin) as (s & rest & u & -> & [->| ->]);
    split; intros [=].
Qed.

(** ** The first matching source *)

Lemma first_match (l : list string) :
  Forall unmatched l \/
  exists pre f post, l = (pre ++ f :: post)%list /\ Forall unmatched pre /\
    is_Some (regexp_exec SUPPORTED_PACKAGES f).
Proof.
  induction l as [|x l IH]; [by left|].
  destruct (regexp_exec SUPPORTED_PACKAGES x) as [mp|] eqn:Hx.
  - right. exists [], x, l. by rewrite Hx.
  - destruct IH as [IH|(pre & f & post & -> & Hpre & Hf)]; [left; by constructor|].
    right. exists (x :: pre), f, post. split; [done|]. split; [by constructor|done].
Qed.

Lemma build_first_match (v : JSValue) (m : SourceMapV3) (options : Options) (fuel : nat)
    (map : TraceMap) (importer : string) (depth : nat) (pre post : list string) (f : string)
    (w w' : World) (t : Sources) :
  asSourceMapV3 v = Some m ->
  resolvedSources map = (pre ++ f :: post)%list ->
  Forall unmatched pre ->
  is_Some (regexp_exec SUPPORTED_PACKAGES f) ->
  build resolveUri fuel (the_loader v options) map importer depth w = Some (Normal t, w') ->
  exists versionEntry extra,
    matcher f m = Normal versionEntry /\
    reactVersions w' = (reactVersions w ++ versionEntry :: extra)%list.
Proof.
  intros Hm Hrs Hpre Hf. destruct fuel as [|fuel]; [done|]. rewrite build_S. intros H.
  apply bind_inv in H as ([ts|e] & w1 & Hch & H); [|by destruct H]. injection H as <- <-.
  rewrite Hrs, imap_pair_app, mapM_app_run in Hch.
  destruct (children_unmatched v m options fuel map importer (depth + 1) (imap pair pre) w Hm
              (imap_unmatched id pre Hpre)) as (w2 & Hpre_run & Hw2).
  rewrite Hpre_run, mapM_cons_run in Hch.
  destruct (child fuel (the_loader v options) map importer (depth + 1) (length pre, f) w2)
    as [[[t1|e] w3]|] eqn:Hc; [|done..].
  destruct (mapM (child fuel (the_loader v options) map importer (depth + 1))
              (imap (fun i => pair (length pre + S i)) post) w3)
    as [[[k|e] w4]|] eqn:Hrest; [|done..].
  injection Hch as <- <-.
  assert (reactVersions w3 `prefix_of` reactVersions w4) as [extra2 Hw4].
  { eapply mapM_grows; [|exact Hrest]. intros x w0 c0 w0' _. by apply child_grows with m. }
  destruct (child_run v m options fuel map importer (depth + 1) (length pre) f w2 Hm)
    as (w5 & Hw5 & Hrun).
  rewrite Hrun in Hc. clear Hrun.
  destruct (loader_outcome_cases m f) as [[Hu _]|[_ [(e & _ & Ho)|[(ve & e & _ & _ & Ho)|
    (ve & sm & Hve & _ & Ho)]]]]; [|rewrite Ho in Hc, Hw5; simpl in Hc, Hw5..].
  - destruct Hf as [mp Hf]. unfold unmatched in Hu. congruence.
  - done.
  - done.
  - assert (reactVersions w5 `prefix_of` reactVersions w3) as [extra1 Hw3].
    { apply bind_inv in Hc as (c3 & w6 & Htm & Hc). rewrite new_TraceMap_run in Htm.
      destruct (asSourceMapV3 sm); [|done]. injection Htm as <- <-.
      by eapply build_grows. }
    exists ve, (extra1 ++ extra2)%list. split; [done|].
    rewrite Hw4, Hw3, Hw5, Hw2. by rewrite <- !app_assoc.
Qed.

(** X6. When the entry point returns a result for a document with a
    source that the pattern matches, the result has [rewroteSourcemap]
    true and reports the release that the matcher finds for the first such
    source in the order of the source list, whatever the later sources and
    the recorded maps hold. *)
Theorem first_match_reported (fuel : nat) (v : JSValue) (m : SourceMapV3) (options : Options)
    (w w' : World) (r : RewriteSourcemapResult) (pre post : list string) (f : string) :
  asSourceMapV3 v = Some m ->
  resolvedSources (trace_map m "") = (pre ++ f :: post)%list ->
  Forall unmatched pre ->
  is_Some (regexp_exec SUPPORTED_PACKAGES f) ->
  rewrite fuel v options w = Some (Normal r, w') ->
  exists versionEntry,
    matcher f m = Normal versionEntry /\
    reactVersion r = Some versionEntry /\
    rewroteSourcemap r = true.
Proof.
  intros Hm Hrs Hpre Hf. rewrite (rewrite_run fuel v m options w Hm).
  destruct (build resolveUri fuel (the_loader v options) (trace_map m "") "" 0 (fresh w))
    as [[[tree|e] w1]|] eqn:Hb; [|done..].
  intros [= <- <-].
  destruct (build_first_match v m options fuel _ _ _ pre post f _ _ _ Hm Hrs Hpre Hf Hb)
    as (ve & extra & Hve & Hw1).
  exists ve. split; [done|]. simpl in *. by rewrite Hw1.
Qed.

(** X7. For a result that the entry point returns, [rewroteSourcemap] is
    true exactly when the pattern matches the resolved name of some source
    of the document. *)
Theorem rewrote_iff_matching (fuel : nat) (v : JSValue) (m : SourceMapV3) (options : Options)
    (w w' : World) (r : RewriteSourcemapResult) :
  asSourceMapV3 v = Some m ->
  rewrite fuel v options w = Some (Normal r, w') ->
  rewroteSourcemap r = true <->
  Exists (fun f => is_Some (regexp_exec SUPPORTED_PACKAGES f)) (resolvedSources (trace_map m "")).
Proof.
  intros Hm Hrun.
  destruct (first_match (resolvedSources (trace_map m "")))
    as [Hall|(pre & f & post & Hrs & Hpre & Hf)].
  - destruct fuel as [|fuel].
    { by rewrite (rewrite_run 0 v m options w Hm) in Hrun. }
    destruct (rewrite_unmatched fuel v m options w Hm Hall) as (w2 & Hrun2 & _).
    rewrite Hrun in Hrun2. injection Hrun2 as -> _. simpl. split; [done|].
    intros Hex. apply Exists_exists in Hex as (f & Hin & [mp Hf]).
    pose proof (proj1 (Forall_forall _ _) Hall f Hin) as Hu. unfold unmatched in Hu. congruence.
  - rewrite (rewrite_run fuel v m options w Hm) in Hrun.
    destruct (build resolveUri fuel (the_loader v options) (trace_map m "") "" 0 (fresh w))
      as [[[tree|e] w1]|] eqn:Hb; [|done..].
    injection Hrun as <- <-.
    destruct (build_first_match v m options fuel _ _ _ pre post f _ _ _ Hm Hrs Hpre Hf Hb)
      as (ve & extra & _ & Hw1).
    simpl in *. rewrite Hw1. simpl. split; [|done]. intros _.
    rewrite Hrs. apply Exists_app. right. by constructor.
Qed.

(** Every value that [loadSourcemap] returns from the disk is a document
    of the interface: the maps on disk hold what the types say. *)
Definition interface_disk : Prop :=
  forall filePath sourcemap,
    load filePath = Normal sourcemap -> is_Some (asSourceMapV3 sourcemap).


(** X9. The index that the matcher selects is -1 exactly when no entry
    of the source list is the candidate or normalizes to it; otherwise it
    is a position of the source list, and the entry there is a string
    that is the candidate or normalizes to it. *)
Theorem selected_position (candidate : string) (m : SourceMapV3) :
  (filenameIndex resolveUri candidate m = (-1)%Z <->
     (Some candidate ∉ sources m) /\
     forall e, Some e ∈ sources m -> ~ normalizes_to resolveUri e candidate) /\
  (filenameIndex resolveUri candidate m <> (-1)%Z ->
     exists n e,
       filenameIndex resolveUri candidate m = Z.of_nat n /\
       (n < length (sources m))%nat /\
       sources m !! n = Some (Some e) /\
       (e = candidate \/ normalizes_to resolveUri e candidate)).
Proof.
  destruct (decide (Some candidate ∈ sources m)) as [Hin|Hnot].
  - destruct (filenameIndex_exact resolveUri candidate m Hin) as [Heq Hne].
    destruct (indexOf_found _ _ Hin) as (n & Hn & Hlook & _).
    split; [split; [done|by intros [? _]]|]. intros _. exists n, candidate.
    rewrite Heq, Hn. split; [done|]. split; [by eapply lookup_lt_Some|]. split; [done|by left].
  - rewrite (filenameIndex_fallback resolveUri candidate m Hnot).
    destruct (findIndex_inv (second_pass resolveUri candidate) (sources m))
      as [[Hr Hall]|(n & x & Hr & Hn & Hx & _)]; rewrite Hr.
    + split; [|done]. split; [|done]. intros _. split; [done|]. intros e He Hnorm.
      apply list_elem_of_lookup in He as [j Hj]. specialize (Hall j _ Hj).
      apply (second_pass_true resolveUri sha256_hex) in Hnorm. congruence.
    + destruct x as [e|]; [|done]. apply (second_pass_true resolveUri sha256_hex) in Hx.
      split.
      * split; [lia|]. intros [_ Hnone]. exfalso. apply (Hnone e); [|done].
        apply list_elem_of_lookup. eauto.
      * intros _. exists n, e. split; [done|]. split; [by eapply lookup_lt_Some|].
        split; [done|by right].
Qed.

Lemma endsWith_slash (b : string) : endsWith (b +:+ "/") "/" = true.
Proof.
  unfold endsWith.
  assert (String.length (b +:+ "/") = S (String.length b)) as ->
    by (induction b as [|c b IH]; simpl; congruence).
  simpl. replace (String.length b - 0)%nat with (String.length b) by lia.
  assert (String.substring (String.length b) 1 (b +:+ "/") = "/") as ->; [|done].
  induction b as [|c b IH]; [done|]. simpl. exact IH.
Qed.

(** X10. [resolve] treats a non-empty base as a directory: a base that
    does not end in a slash resolves as the same base with the slash. *)
Theorem resolve_base_is_directory (input b : string) :
  b <> "" -> endsWith b "/" = false ->
  resolve resolveUri input (Some b) = resolve resolveUri input (Some (b +:+ "/")) /\
  resolve resolveUri input (Some b) = resolveUri input (Some (b +:+ "/")).
Proof.
  intros Hb Hs. unfold resolve. rewrite Hs, endsWith_slash.
  apply truthy_true in Hb as ->. simpl. by rewrite andb_false_r.
Qed.

(** ** What a returned result says about the document *)

Lemma rewrite_summary (fuel : nat) (v : JSValue) (options : Options) (w w' : World)
    (r : RewriteSourcemapResult) :
  rewrite fuel v options w = Some (Normal r, w') ->
  exists m tree,
    asSourceMapV3 v = Some m /\
    outputSourcemap r = traceMappings tree /\
    Forall (fun n => unmatched n /\ resolved_name n) (leaf_names tree) /\
    (rewroteSourcemap r = false -> Forall unmatched (resolvedSources (trace_map m ""))).
Proof.
  intros Hrun. destruct (described_return _ _ _ _ _ _ Hrun) as [m Hm].
  rewrite (rewrite_run fuel v m options w Hm) in Hrun.
  destruct (build resolveUri fuel (the_loader v options) (trace_map m "") "" 0 (fresh w))
    as [[[tree|e] w1]|] eqn:Hb; [|done..].
  injection Hrun as <- <-. exists m, tree. split; [done|]. split; [done|]. split.
  { exact (build_leaves v m options fuel Hm _ _ _ _ _ _ (trace_map_resolved m "") Hb). }
  destruct (first_match (resolvedSources (trace_map m "")))
    as [Hall|(pre & f & post & Hrs & Hpre & Hf)]; [done|].
  destruct (build_first_match v m options fuel _ _ _ pre post f _ _ _ Hm Hrs Hpre Hf Hb)
    as (ve & extra & _ & Hw1).
  simpl in *. by rewrite Hw1.
Qed.

(** A document that the composition library makes of a tree whose leaves
    the pattern does not match has no source that the pattern matches,
    when the library names leaves as sources, gives no source root, and the
    resolver leaves its own results as they are. *)
Lemma output_unmatched (tree : Sources) :
  (forall tree, Forall (fun s => exists n, s = Some n /\ n ∈ leaf_names tree)
                  (sources (traceMappings tree))) ->
  (forall tree, sourceRoot (traceMappings tree) = None) ->
  resolveUri "" (Some "") = "" ->
  (forall x b, resolveUri (resolveUri x b) (Some "") = resolveUri x b) ->
  Forall (fun n => unmatched n /\ resolved_name n) (leaf_names tree) ->
  Forall unmatched (resolvedSources (trace_map (traceMappings tree) "")).
Proof.
  intros Hsources Hroot Hempty Hidem Hleaves.
  simpl. rewrite Hroot. simpl.
  apply Forall_fmap. eapply Forall_impl; [apply (Hsources tree)|].
  intros s (n & -> & Hin). simpl.
  pose proof (proj1 (Forall_forall _ _) Hleaves n Hin) as [Hu (x & b & ->)].
  unfold resolve. simpl. by rewrite Hempty, Hidem.
Qed.

End Walk.

(** ** The stand-in resolver *)

Lemma remove_dot_segments_eq (c : ascii) (rest : string) :
  Sample.remove_dot_segments (String c rest) =
    match rest with
    | String d (String e r) =>
        if Sample.dot_segment c d e then Sample.remove_dot_segments (String e r)
        else String c (Sample.remove_dot_segments rest)
    | _ => String c (Sample.remove_dot_segments rest)
    end.
Proof. by destruct rest as [|d [|e r]]. Qed.

(** The first character of a string *)
Definition first_char (s : string) : option ascii :=
  match s with
  | String c _ => Some c
  | EmptyString => None
  end.

Lemma dot_segment_true (c d e : ascii) :
  Sample.dot_segment c d e = true -> c = "/"%char /\ d = "."%char /\ e = "/"%char.
Proof.
  unfold Sample.dot_segment. intros H. apply andb_prop in H as [H He].
  apply andb_prop in H as [Hc Hd]. by rewrite !Ascii.eqb_eq in *.
Qed.

Lemma remove_dot_segments_first (n : nat) (s : string) :
  String.length s <= n -> first_char (Sample.remove_dot_segments s) = first_char s.
Proof.
  revert s. induction n as [|n IH]; intros [|c rest] Hn; simpl in Hn; try done; [lia|].
  rewrite remove_dot_segments_eq. destruct rest as [|d [|e r]]; try done.
  destruct (Sample.dot_segment c d e) eqn:Ht; [|done].
  apply dot_segment_true in Ht as (-> & -> & ->). rewrite IH by (simpl in *; lia). done.
Qed.

Lemma remove_dot_segments_idempotent (n : nat) (s : string) :
  String.length s <= n ->
  Sample.remove_dot_segments (Sample.remove_dot_segments s) = Sample.remove_dot_segments s.
Proof.
  revert s. induction n as [|n IH]; intros [|c rest] Hn; simpl in Hn; try done; [lia|].
  rewrite remove_dot_segments_eq.
  assert (Sample.remove_dot_segments (String c (Sample.remove_dot_segments rest)) =
          String c (Sample.remove_dot_segments rest) \/
          exists r, c = "/"%char /\ rest = String "." (String "/" r)) as Hkeep.
  { rewrite remove_dot_segments_eq.
    destruct (Sample.remove_dot_segments rest) as [|d [|e r']] eqn:Hrest.
    - by left.
    - by left.
    - destruct (Sample.dot_segment c d e) eqn:Ht.
      + right. apply dot_segment_true in Ht as (-> & -> & ->).
        pose proof (remove_dot_segments_first n rest ltac:(lia)) as Hfirst.
        rewrite Hrest in Hfirst. destruct rest as [|d rest2]; [done|].
        injection Hfirst as <-. rewrite remove_dot_segments_eq in Hrest.
        assert (Sample.remove_dot_segments rest2 = String "/" r') as Hrest2.
        { destruct rest2 as [|e2 [|e3 r3]]; [done|simpl in *; congruence|].
          change (Sample.dot_segment "." e2 e3) with false in Hrest. by injection Hrest. }
        pose proof (remove_dot_segments_first n rest2 ltac:(simpl in Hn; lia)) as Hfirst2.
        rewrite Hrest2 in Hfirst2. destruct rest2 as [|e2 r2]; [done|].
        injection Hfirst2 as <-. by exists r2.
      + left. f_equal. rewrite <- Hrest. apply IH. lia. }
  destruct rest as [|d [|e r]].
  - done.
  - destruct Hkeep as [H|(r & _ & Hr)]; [done|discriminate Hr].
  - destruct (Sample.dot_segment c d e) eqn:Ht.
    + apply IH. simpl in *. lia.
    + destruct Hkeep as [H|(r' & -> & [= -> -> ->])]; [done|]. by vm_compute in Ht.
Qed.

Lemma sample_resolveUri_idempotent (x : string) (b : option string) :
  Sample.resolveUri (Sample.resolveUri x b) (Some "") = Sample.resolveUri x b.
Proof.
  unfold Sample.resolveUri. simpl.
  apply (remove_dot_segments_idempotent (String.length (default "" b +:+ x))). lia.
Qed.

(** ** The theorems at concrete documents *)

(** The document of the scenarios: one source, the minified build under a
    [webpack] prefix, with the given content. *)
Definition webpack_bundle (content : option string) : SourceMapV3 :=
  Sample.bundle None [Some webpack_entry] [content].

(** C1 at the document whose source has no content: the call throws. *)
Lemma unresolved_reference_aborts_witness :
  exists w',
    Sample.run Sample.fs 2 (toJS (webpack_bundle None)) default_options =
      Some (Throw (Error ("Cannot find source contents for '" +:+ webpack_resolved +:+ "'")), w') /\
    reactVersions w' = [].
Proof.
  apply (unresolved_reference_aborts Sample.resolveUri Sample.sha256_hex
           Sample.hashesToSourcemapDescriptors Sample.fs Sample.JSON_parse Sample.path_join
           Sample.dirname Sample.traceMappings 0 (toJS (webpack_bundle None))
           (webpack_bundle None) default_options Sample.world0 [] [] webpack_resolved).
  - by vm_compute.
  - by vm_compute.
  - constructor.
  - vm_compute. by eexists.
  - by vm_compute.
Defined.

(** The same for a content that is no registered build, and for a document
    with a source root, where the resolved name is not in the source
    list. *)
Lemma unresolved_reference_aborts_more :
  Sample.run Sample.fs 1 (toJS (webpack_bundle (Some "/* patched build */"))) default_options =
    Some (Throw (Error ("Cannot find version for '" +:+ webpack_resolved +:+ "'")),
          Sample.world0) /\
  Sample.run Sample.fs 1
    (toJS (Sample.bundle (Some "src") [Some "react-dom.production.min.js"]
             [Some Sample.minified])) default_options =
    Some (Throw (Error "Cannot find 'src/react-dom.production.min.js' in input sourcemap"),
          Sample.world0).
Proof. split; by vm_compute. Qed.

(** C7 on a disk without the recorded map. *)
Lemma registry_load_failure_aborts_witness :
  exists w',
    Sample.run Sample.fs_without 2 (toJS (webpack_bundle (Some Sample.minified)))
      default_options =
      Some (Throw (Error ("Cannot find " +:+ Sample.recorded_path)), w') /\
    reactVersions w' = [Sample.react_dom_18_2_0].
Proof.
  apply (registry_load_failure_aborts Sample.resolveUri Sample.sha256_hex
           Sample.hashesToSourcemapDescriptors Sample.fs_without Sample.JSON_parse
           Sample.path_join Sample.dirname Sample.traceMappings 0
           (toJS (webpack_bundle (Some Sample.minified)))
           (webpack_bundle (Some Sample.minified)) default_options Sample.world0 [] []
           webpack_resolved Sample.react_dom_18_2_0).
  - by vm_compute.
  - by vm_compute.
  - constructor.
  - vm_compute. by eexists.
  - by vm_compute.
  - left. split; by vm_compute.
Defined.

(** C3 is not what the program does when the map recorded for the
    release is not on disk: the document has one source, it matches the
    pattern and the hash of its content is registered, and the call throws
    instead of returning. *)
Lemma recorded_map_missing_counterexample :
  sources (webpack_bundle (Some Sample.minified)) = [Some webpack_entry] /\
  regexp_exec SUPPORTED_PACKAGES webpack_resolved =
    Some ["react-dom.production.min.js"; "react-dom.production.min.js"] /\
  Sample.hashesToSourcemapDescriptors !! Sample.sha256_hex Sample.minified =
    Some Sample.react_dom_18_2_0 /\
  Sample.run Sample.fs_without 2 (toJS (webpack_bundle (Some Sample.minified)))
    default_options =
    Some (Throw (Error "Cannot find /pkg/lib/../assets/react-dom/18.2.0/react-dom.production.min.js.map"),
          {| reactVersions := [Sample.react_dom_18_2_0]; console := [] |}).
Proof. repeat split; by vm_compute. Qed.

(** C3 on the disk with the recorded map. *)
Lemma single_resolved_reference_witness :
  exists out w',
    Sample.run Sample.fs 2 (toJS (webpack_bundle (Some Sample.minified))) default_options =
      Some (Normal {| outputSourcemap := out; rewroteSourcemap := true;
                      reactVersion := Some Sample.react_dom_18_2_0 |}, w') /\
    reactVersions w' = [Sample.react_dom_18_2_0].
Proof.
  refine (proj1 (single_resolved_reference Sample.resolveUri Sample.sha256_hex
           Sample.hashesToSourcemapDescriptors Sample.fs Sample.JSON_parse
           Sample.path_join Sample.dirname Sample.traceMappings 0
           (toJS (webpack_bundle (Some Sample.minified)))
           (webpack_bundle (Some Sample.minified)) default_options Sample.world0 [] []
           webpack_resolved Sample.minified Sample.react_dom_18_2_0 _ _ _ _ _ _ _ _ _ _)).
  - by vm_compute.
  - by vm_compute.
  - constructor.
  - constructor.
  - vm_compute. by eexists.
  - by vm_compute.
  - by vm_compute.
  - by vm_compute.
  - by vm_compute.
  - exists (toJS Sample.recorded), Sample.recorded. split; [by vm_compute|].
    split; [by vm_compute|]. by repeat constructor.
Defined.

(** A document without the minified build, and what the entry point
    returns for it. *)
Definition app_bundle : SourceMapV3 :=
  Sample.bundle None [Some "src/app.js"] [Some "render()"].

Definition app_result : RewriteSourcemapResult :=
  {| outputSourcemap :=
       {| file := None; names := []; sourceRoot := None; sources := [Some "src/app.js"];
          sourcesContent := None; mappings := JString "" |};
     rewroteSourcemap := false;
     reactVersion := None |}.

(** C4 at that document. *)
Lemma no_version_no_replacement_witness :
  reactVersion app_result = None /\
  remapping Sample.resolveUri Sample.traceMappings 1 (toJS app_bundle) no_replacement
    Sample.world0 = Some (Normal (outputSourcemap app_result), Sample.world0).
Proof.
  destruct (no_version_no_replacement Sample.resolveUri Sample.sha256_hex
           Sample.hashesToSourcemapDescriptors Sample.fs Sample.JSON_parse
           Sample.path_join Sample.dirname Sample.traceMappings 1 (toJS app_bundle)
           default_options Sample.world0 Sample.world0 app_result)
    as (Hnone & _ & Hout & _); [by vm_compute|done|].
  split; [exact Hnone|apply Hout].
Defined.

(** The result of the first call on the document of the scenarios. *)
Definition first_result : RewriteSourcemapResult :=
  {| outputSourcemap :=
       {| file := None; names := []; sourceRoot := None;
          sources := [Some "webpack://_N_E/node_modules/react-dom/cjs/react-dom.production.js"];
          sourcesContent := None; mappings := JString "" |};
     rewroteSourcemap := true;
     reactVersion := Some Sample.react_dom_18_2_0 |}.

(** C6 at that result: the second call finds nothing. *)
Lemma second_rewrite_finds_nothing_witness :
  exists w2',
    Sample.run Sample.fs 1 (toJS (outputSourcemap first_result)) default_options =
      Some (Normal {| outputSourcemap :=
                        Sample.traceMappings
                          (flat_tree
                             (trace_map Sample.resolveUri (outputSourcemap first_result) ""));
                      rewroteSourcemap := false;
                      reactVersion := None |}, w2') /\
    reactVersions w2' = [].
Proof.
  apply (second_rewrite_finds_nothing Sample.resolveUri Sample.sha256_hex
           Sample.hashesToSourcemapDescriptors Sample.fs Sample.JSON_parse
           Sample.path_join Sample.dirname Sample.traceMappings 2 0
           (toJS (webpack_bundle (Some Sample.minified))) default_options default_options
           Sample.world0 {| reactVersions := [Sample.react_dom_18_2_0]; console := [] |}
           Sample.world0 first_result).
  - intros tree. simpl. apply Forall_fmap, Forall_forall. intros n Hin. by exists n.
  - done.
  - by vm_compute.
  - apply sample_resolveUri_idempotent.
  - by vm_compute.
Defined.

(** ** The pattern as a substring test *)

Lemma prefix_append (a s : string) :
  String.prefix a s = true <-> exists post, s = a +:+ post.
Proof.
  revert s. induction a as [|c a IH]; intros s.
  - split; [|by destruct s]. intros _. by exists s.
  - destruct s as [|d s]; simpl.
    + split; [done|]. by intros [post [=]].
    + destruct (Ascii.ascii_dec c d) as [->|Hne].
      * rewrite IH. split; intros [post Hpost]; exists post; [by rewrite Hpost|].
        by injection Hpost.
      * split; [done|]. intros [post [= Hc _]]. done.
Qed.

Lemma match_here_Some (alternatives : list string) (s a : string) :
  match_here alternatives s = Some a ->
  a ∈ alternatives /\ exists post, s = a +:+ post.
Proof.
  unfold match_here. intros Ha. apply find_some in Ha as [Hin Hp].
  split; [by apply list_elem_of_In|]. by apply prefix_append.
Qed.

Lemma match_here_None (alternatives : list string) (s a post : string) :
  match_here alternatives s = None -> a ∈ alternatives -> s <> a +:+ post.
Proof.
  unfold match_here. intros Hnone Hin ->.
  pose proof (find_none _ _ Hnone a (proj1 (list_elem_of_In _ _) Hin)) as Hp.
  simpl in Hp. assert (String.prefix a (a +:+ post) = true) as Ht
    by (apply prefix_append; by exists post).
  congruence.
Qed.

Lemma regexp_exec_eq (alternatives : list string) (s : string) :
  regexp_exec alternatives s =
  match match_here alternatives s with
  | Some m => Some [m; m]
  | None => match s with
            | EmptyString => None
            | String _ rest => regexp_exec alternatives rest
            end
  end.
Proof. by destruct s. Qed.

Lemma regexp_exec_substring (alternatives : list string) (s : string) :
  is_Some (regexp_exec alternatives s) <->
  exists pre a post, a ∈ alternatives /\ s = pre +:+ a +:+ post.
Proof.
  split.
  - induction s as [|c s IH]; rewrite regexp_exec_eq;
      destruct (match_here alternatives _) as [a|] eqn:Ha.
    + intros _. apply match_here_Some in Ha as [Hin [post ->]]. by exists "", a, post.
    + by intros [? [=]].
    + intros _. apply match_here_Some in Ha as [Hin [post ->]]. by exists "", a, post.
    + intros H. destruct (IH H) as (pre & a & post & Hin & ->).
      by exists (String c pre), a, post.
  - intros (pre & a & post & Hin & ->). induction pre as [|c pre IH].
    + change ("" +:+ a +:+ post) with (a +:+ post). rewrite regexp_exec_eq.
      destruct (match_here alternatives (a +:+ post)) as [b|] eqn:Hb; [done|].
      exfalso. by apply (match_here_None _ _ a post Hb Hin).
    + rewrite regexp_exec_eq.
      destruct (match_here alternatives (String c pre +:+ a +:+ post)); [done|].
      exact IH.
Qed.

Lemma regexp_exec_groups (alternatives : list string) (s : string) (matched : list string) :
  regexp_exec alternatives s = Some matched ->
  exists a, a ∈ alternatives /\ matched = [a; a].
Proof.
  induction s as [|c s IH]; rewrite regexp_exec_eq;
    destruct (match_here alternatives _) as [a|] eqn:Ha; try done;
    intros [= <-]; apply match_here_Some in Ha as [Hin _]; by exists a.
Qed.

(** X11. The pattern is a substring test: [exec] finds a match exactly in
    the names that contain one of the two file names somewhere, also in
    the middle of a longer name, and the match that it reports, and its
    group, is one of the two file names. *)
Theorem pattern_is_substring_test (s : string) :
  (is_Some (regexp_exec SUPPORTED_PACKAGES s) <->
     exists pre a post,
       (a = "react-dom.profiling.min.js" \/ a = "react-dom.production.min.js") /\
       s = pre +:+ a +:+ post) /\
  (forall matched, regexp_exec SUPPORTED_PACKAGES s = Some matched ->
     matched = ["react-dom.profiling.min.js"; "react-dom.profiling.min.js"] \/
     matched = ["react-dom.production.min.js"; "react-dom.production.min.js"]).
Proof.
  split.
  - rewrite regexp_exec_substring. unfold SUPPORTED_PACKAGES.
    split; intros (pre & a & post & Hin & ->); exists pre, a, post; (split; [|done]).
    + apply elem_of_cons in Hin as [->|Hin]; [by left|].
      apply elem_of_cons in Hin as [->|Hin]; [by right|]. by apply elem_of_nil in Hin.
    + destruct Hin as [Ha|Ha]; rewrite Ha; [by left|]. right. by left.
  - intros matched Hm. apply regexp_exec_groups in Hm as (a & Hin & ->).
    unfold SUPPORTED_PACKAGES in Hin.
    apply elem_of_cons in Hin as [->|Hin]; [by left|].
    apply elem_of_cons in Hin as [->|Hin]; [by right|]. by apply elem_of_nil in Hin.
Qed.

(** * The bundler plugin

    [rewireSourceMapsFromGeneratedAssetList] of [unplugin.ts], the function
    that every hook of the plugin ends in, with arguments of the types it
    declares: [options] is an object.  It reads and writes the disk, so
    the disk is part of the state here; a path names a file as it is
    written, and a write always succeeds. *)

(** [{ debug?: boolean }] *)
Record ReactSourcemapsPluginOptions := { debug : option bool }.

(** [if (options.debug)] *)
Definition debug_on (options : ReactSourcemapsPluginOptions) : bool :=
  default false (debug options).

(** What a run of the plugin can change: the files on disk and the
    console. *)
Record Machine := {
  disk : gmap string string;
  shown : list (list LogArg);
}.

Definition print (args : list LogArg) (s : Machine) : Machine :=
  {| disk := disk s; shown := shown s ++ [args] |}.

(** [fs.writeFileSync(file, data)] *)
Definition writeFileSync (file data : string) (s : Machine) : Machine :=
  {| disk := <[file := data]> (disk s); shown := shown s |}.

Section Plugin.

Variable resolveUri : string -> option string -> string.
Variable sha256_hex : string -> string.
Variable hashesToSourcemapDescriptors : gmap string ReactVersion.
Variable JSON_parse : string -> option JSValue.
Variable path_join : list string -> string.
Variable __dirname : string.
Variable traceMappings : Sources -> SourceMapV3.

(** [JSON.stringify(value, null, 2)] *)
Variable JSON_stringify : JSValue -> string.

(** The call of the entry point on the disk of [s]; what it prints goes to
    the console of [s]. *)
Definition rewrite_on (fuel : nat) (sourcemap : JSValue)
    (options : ReactSourcemapsPluginOptions) (s : Machine)
  : option (Completion RewriteSourcemapResult * World) :=
  maybeRewriteSourcemapWithReactProd resolveUri sha256_hex hashesToSourcemapDescriptors
    (disk s) JSON_parse path_join __dirname traceMappings fuel sourcemap
    {| verbose := debug options |} {| reactVersions := []; console := shown s |}.

(** The [for] loop, from the asset at hand on. *)
Fixpoint rewire_assets (fuel : nat) (generatedAssets : list string)
    (options : ReactSourcemapsPluginOptions) (s : Machine)
  : option (Completion unit * Machine) :=
  match generatedAssets with
  | [] => Some (Normal (), s)
  | file :: rest =>
      if negb (endsWith file ".map") then rewire_assets fuel rest options s else
      match loadSourcemap (disk s) JSON_parse file with
      | Throw e => Some (Throw e, s)
      | Normal sourcemap =>
          match rewrite_on fuel sourcemap options s with
          | None => None
          | Some (Throw e, w) => Some (Throw e, {| disk := disk s; shown := console w |})
          | Some (Normal rewriteResult, w) =>
              let s := {| disk := disk s; shown := console w |} in
              if negb (rewroteSourcemap rewriteResult) then
                let s :=
                  if debug_on options
                  then print [LStr "ReactSourceMaps: ❌ No React version found in sourcemap, skipping";
                              LStr file] s
                  else s in
                rewire_assets fuel rest options s
              else
                let s :=
                  if debug_on options
                  then print [LStr "ReactSourceMaps: ✅ Remapped react sourcemaps for ";
                              LStr file; LStr "writing to disk..."] s
                  else s in
                let s :=
                  writeFileSync file
                    (JSON_stringify (toJS (outputSourcemap rewriteResult))) s in
                rewire_assets fuel rest options s
          end
      end
  end.

Definition rewireSourceMapsFromGeneratedAssetList (fuel : nat)
    (generatedAssets : list string) (options : ReactSourcemapsPluginOptions) (s : Machine)
  : option (Completion unit * Machine) :=
  if (length generatedAssets =? 0)%nat then
    Some (Normal (),
          print [LStr "ReactSourceMaps: Bundle did not generate any assets? This might be a bug with react-sourcemaps plugin or an issue with your build tool"] s)
  else rewire_assets fuel generatedAssets options s.

End Plugin.

(** ** Properties of the plugin *)

Section PluginFacts.

Context (resolveUri : string -> option string -> string)
        (sha256_hex : string -> string)
        (registry : gmap string ReactVersion)
        (JSON_parse : string -> option JSValue)
        (path_join : list string -> string)
        (dirname : string)
        (traceMappings : Sources -> SourceMapV3)
        (JSON_stringify : JSValue -> string).

Local Abbreviation plugin :=
  (rewireSourceMapsFromGeneratedAssetList resolveUri sha256_hex registry JSON_parse
     path_join dirname traceMappings JSON_stringify).
Local Abbreviation assets_loop :=
  (rewire_assets resolveUri sha256_hex registry JSON_parse path_join dirname traceMappings
     JSON_stringify).
Local Abbreviation call :=
  (rewrite_on resolveUri sha256_hex registry JSON_parse path_join dirname traceMappings).

Lemma plugin_nonempty (fuel : nat) (l : list string) (options : ReactSourcemapsPluginOptions)
    (s : Machine) :
  l <> [] -> plugin fuel l options s = assets_loop fuel l options s.
Proof. unfold rewireSourceMapsFromGeneratedAssetList. by destruct l. Qed.

Lemma rewire_assets_skip (fuel : nat) (file : string) (rest : list string)
    (options : ReactSourcemapsPluginOptions) (s : Machine) :
  endsWith file ".map" = false ->
  assets_loop fuel (file :: rest) options s = assets_loop fuel rest options s.
Proof. intros H. simpl. by rewrite H. Qed.

Lemma rewire_assets_app (fuel : nat) (l1 l2 : list string)
    (options : ReactSourcemapsPluginOptions) (s : Machine) :
  assets_loop fuel (l1 ++ l2) options s =
    match assets_loop fuel l1 options s with
    | Some (Normal _, s1) => assets_loop fuel l2 options s1
    | other => other
    end.
Proof.
  revert s. induction l1 as [|file l1 IH]; intros s; [done|].
  simpl. destruct (endsWith file ".map"); simpl; [|apply IH].
  destruct (loadSourcemap (disk s) JSON_parse file) as [v|e]; [|done].
  destruct (call fuel v options s) as [[[r|e] w]|]; [|done..].
  destruct (rewroteSourcemap r); simpl; apply IH.
Qed.

Lemma rewire_assets_filter (fuel : nat) (l : list string)
    (options : ReactSourcemapsPluginOptions) (s : Machine) :
  assets_loop fuel l options s =
  assets_loop fuel (filter (fun file => endsWith file ".map" = true) l) options s.
Proof.
  revert s. induction l as [|file l IH]; intros s; [done|].
  destruct (endsWith file ".map") eqn:Hf.
  - rewrite filter_cons_True by done. simpl. rewrite Hf. simpl.
    destruct (loadSourcemap (disk s) JSON_parse file) as [v|e]; [|done].
    destruct (call fuel v options s) as [[[r|e] w]|]; [|done..].
    destruct (rewroteSourcemap r); simpl; apply IH.
  - rewrite filter_cons_False by (rewrite Hf; done).
    rewrite rewire_assets_skip by done. apply IH.
Qed.

(** X12. Assets whose name does not end in [.map] play no part: two
    non-empty asset lists with the same source map assets, in the same
    order, give the same run. *)
Theorem only_map_assets_count (fuel : nat) (l l' : list string)
    (options : ReactSourcemapsPluginOptions) (s : Machine) :
  l <> [] -> l' <> [] ->
  filter (fun file => endsWith file ".map" = true) l =
  filter (fun file => endsWith file ".map" = true) l' ->
  plugin fuel l options s = plugin fuel l' options s.
Proof.
  intros Hl Hl' Hf. rewrite !plugin_nonempty by done.
  rewrite (rewire_assets_filter fuel l), (rewire_assets_filter fuel l'). by rewrite Hf.
Qed.

(** X13. The assets are taken one after the other: a run on two lists in
    a row is the run on the first followed, when that one returns, by the
    run on the second from the disk and the console it has left; when it
    throws, the second list is not looked at and what has been written
    stays written. *)
Theorem assets_in_sequence (fuel : nat) (l1 l2 : list string)
    (options : ReactSourcemapsPluginOptions) (s : Machine) :
  l1 <> [] -> l2 <> [] ->
  plugin fuel (l1 ++ l2) options s =
    match plugin fuel l1 options s with
    | Some (Normal _, s1) => plugin fuel l2 options s1
    | other => other
    end.
Proof.
  intros H1 H2. rewrite (plugin_nonempty fuel (l1 ++ l2)) by (by destruct l1).
  rewrite (plugin_nonempty fuel l1) by done. rewrite rewire_assets_app.
  destruct (assets_loop fuel l1 options s) as [[[[]|e] s1]|]; [|done..].
  by rewrite plugin_nonempty.
Qed.

Lemma rewire_assets_frame (fuel : nat) (l : list string)
    (options : ReactSourcemapsPluginOptions) (s s' : Machine) (c : Completion unit) :
  assets_loop fuel l options s = Some (c, s') ->
  forall p, disk s' !! p <> disk s !! p ->
    p ∈ l /\ endsWith p ".map" = true /\
    exists tree, disk s' !! p = Some (JSON_stringify (toJS (traceMappings tree))).
Proof.
  revert s. induction l as [|file l IH]; intros s Hrun p Hp.
  { simpl in Hrun. injection Hrun as _ <-. done. }
  simpl in Hrun. destruct (endsWith file ".map") eqn:Hf; simpl in Hrun.
  2:{ destruct (IH s Hrun p Hp) as (Hin & Hmap & Hc). split; [by right|done]. }
  destruct (loadSourcemap (disk s) JSON_parse file) as [v|e];
    [|injection Hrun as _ <-; done].
  destruct (call fuel v options s) as [[[r|e] w]|] eqn:Hcall;
    [|injection Hrun as _ <-; done|done].
  destruct (rewroteSourcemap r) eqn:Hr; simpl in Hrun.
  - unfold rewrite_on in Hcall.
    apply rewrite_summary in Hcall as (m & tree & Hm & Hout & _).
    match type of Hrun with assets_loop _ _ _ ?x = _ => set (s2 := x) in * end.
    destruct (decide (disk s' !! p = disk s2 !! p)) as [Heq|Hne].
    + assert (p = file) as ->.
      { destruct (decide (file = p)) as [->|Hfp]; [done|]. exfalso. apply Hp.
        rewrite Heq. unfold s2. destruct (debug_on options); simpl;
          by rewrite lookup_insert_ne. }
      split; [by left|]. split; [done|]. exists tree. rewrite Heq, <- Hout.
      unfold s2. destruct (debug_on options); simpl; by rewrite lookup_insert_eq.
    + destruct (IH s2 Hrun p Hne) as (Hin & Hmap & Hc). split; [by right|done].
  - match type of Hrun with assets_loop _ _ _ ?x = _ => set (s2 := x) in * end.
    assert (disk s2 = disk s) as Hd by (unfold s2; by destruct (debug_on options)).
    rewrite <- Hd in Hp. destruct (IH s2 Hrun p Hp) as (Hin & Hmap & Hc).
    split; [by right|done].
Qed.

(** X14. Whatever the run comes to, the only files whose content differs
    after it are assets of the list whose name ends in [.map], and such a
    file then holds the serialization of a document of the composition
    library.  No file is removed. *)
Theorem writes_only_listed_maps (fuel : nat) (l : list string)
    (options : ReactSourcemapsPluginOptions) (s s' : Machine) (c : Completion unit) (p : string) :
  plugin fuel l options s = Some (c, s') ->
  disk s' !! p <> disk s !! p ->
  p ∈ l /\ endsWith p ".map" = true /\
  exists tree, disk s' !! p = Some (JSON_stringify (toJS (traceMappings tree))).
Proof.
  intros Hrun Hp. destruct l as [|file l].
  { injection Hrun as _ <-. done. }
  rewrite plugin_nonempty in Hrun by done. exact (rewire_assets_frame _ _ _ _ _ _ Hrun p Hp).
Qed.

Lemma call_quiet (fuel : nat) (v : JSValue) (options : ReactSourcemapsPluginOptions)
    (s : Machine) (c : Completion RewriteSourcemapResult) (w : World) :
  debug_on options = false ->
  call fuel v options s = Some (c, w) -> console w = shown s.
Proof.
  intros Hd Hcall. unfold rewrite_on in Hcall.
  apply console_post_rewrite in Hcall as (logs & Hlogs & _ & Hoff).
  rewrite Hlogs, (Hoff Hd). simpl. by rewrite app_nil_r.
Qed.

Lemma rewire_assets_quiet (fuel : nat) (l : list string)
    (options : ReactSourcemapsPluginOptions) (s s' : Machine) (c : Completion unit) :
  debug_on options = false ->
  assets_loop fuel l options s = Some (c, s') -> shown s' = shown s.
Proof.
  intros Hd. revert s. induction l as [|file l IH]; intros s Hrun.
  { simpl in Hrun. by injection Hrun as _ <-. }
  simpl in Hrun. destruct (endsWith file ".map"); simpl in Hrun; [|by apply IH].
  destruct (loadSourcemap (disk s) JSON_parse file) as [v|e];
    [|by injection Hrun as _ <-].
  destruct (call fuel v options s) as [[[r|e] w]|] eqn:Hcall; [| |done].
  - apply (call_quiet _ _ _ _ _ _ Hd) in Hcall.
    rewrite Hd in Hrun. destruct (rewroteSourcemap r); simpl in Hrun;
      apply IH in Hrun; by rewrite Hrun.
  - apply (call_quiet _ _ _ _ _ _ Hd) in Hcall. by injection Hrun as _ <-.
Qed.

(** X15. With [debug] absent or false a run on a list that is not empty
    prints nothing, whatever it comes to: the one line that the plugin
    prints without [debug] is the warning for an empty list. *)
Theorem quiet_without_debug (fuel : nat) (l : list string)
    (options : ReactSourcemapsPluginOptions) (s s' : Machine) (c : Completion unit) :
  debug_on options = false ->
  plugin fuel l options s = Some (c, s') ->
  (l <> [] -> shown s' = shown s) /\
  (l = [] -> exists line, shown s' = (shown s ++ [line])%list /\ disk s' = disk s).
Proof.
  intros Hd Hrun. split.
  - intros Hl. rewrite plugin_nonempty in Hrun by done.
    exact (rewire_assets_quiet _ _ _ _ _ _ Hd Hrun).
  - intros ->. injection Hrun as _ <-. by eexists.
Qed.

(** The resolved names of the sources of the map in [file] that the
    pattern matches: none when the file does not load, and no answer when
    it holds a value outside the interface. *)
Definition react_sources (d : gmap string string) (file : string) : option (list string) :=
  match loadSourcemap d JSON_parse file with
  | Normal v =>
      (fun m => filter (fun f => is_Some (regexp_exec SUPPORTED_PACKAGES f))
                  (resolvedSources (trace_map resolveUri m ""))) <$> asSourceMapV3 v
  | Throw _ => Some []
  end.

Lemma filter_unmatched (l : list string) :
  filter (fun f => is_Some (regexp_exec SUPPORTED_PACKAGES f)) l = [] ->
  Forall unmatched l.
Proof.
  induction l as [|f l IH]; [done|]. unfold unmatched.
  destruct (regexp_exec SUPPORTED_PACKAGES f) as [mp|] eqn:Hf.
  - rewrite filter_cons_True by (rewrite Hf; by eexists). done.
  - rewrite filter_cons_False by (rewrite Hf; by intros [? [=]]).
    intros H. constructor; [done|by apply IH].
Qed.

Lemma rewire_assets_untouched (fuel : nat) (l : list string)
    (options : ReactSourcemapsPluginOptions) (s s' : Machine) (c : Completion unit) :
  Forall (fun file => endsWith file ".map" = true -> react_sources (disk s) file = Some []) l ->
  assets_loop fuel l options s = Some (c, s') -> disk s' = disk s.
Proof.
  revert s. induction l as [|file l IH]; intros s Hall Hrun.
  { simpl in Hrun. by injection Hrun as _ <-. }
  apply Forall_cons in Hall as [Hfile Hall].
  simpl in Hrun. destruct (endsWith file ".map"); simpl in Hrun; [|by apply IH].
  specialize (Hfile eq_refl). unfold react_sources in Hfile.
  destruct (loadSourcemap (disk s) JSON_parse file) as [v|e] eqn:Hload;
    [|by injection Hrun as _ <-].
  destruct (asSourceMapV3 v) as [m|] eqn:Hm; [|done].
  injection Hfile as Hfile. apply filter_unmatched in Hfile.
  destruct fuel as [|fuel].
  { unfold rewrite_on in Hrun. by rewrite (rewrite_run _ _ _ _ _ _ _ _ 0 v m _ _ Hm) in Hrun. }
  destruct (rewrite_unmatched resolveUri sha256_hex registry (disk s) JSON_parse path_join
              dirname traceMappings fuel v m {| verbose := debug options |}
              {| reactVersions := []; console := shown s |} Hm Hfile) as (w & Hcall & _).
  unfold rewrite_on in Hrun. rewrite Hcall in Hrun. simpl in Hrun.
  apply IH in Hrun; [by destruct (debug_on options)|].
  by destruct (debug_on options).
Qed.

(** X16. A build without React's production files is left as it is: when
    every source map asset of the list either does not load or holds a
    document of the interface no source of which has a resolved name that
    the pattern matches, no file on disk changes, whatever the run comes
    to. *)
Theorem no_react_no_write (fuel : nat) (l : list string)
    (options : ReactSourcemapsPluginOptions) (s s' : Machine) (c : Completion unit) :
  Forall (fun file => endsWith file ".map" = true -> react_sources (disk s) file = Some []) l ->
  plugin fuel l options s = Some (c, s') ->
  disk s' = disk s.
Proof.
  intros Hall Hrun. destruct l as [|file l].
  { by injection Hrun as _ <-. }
  rewrite plugin_nonempty in Hrun by done. exact (rewire_assets_untouched _ _ _ _ _ _ Hall Hrun).
Qed.

End PluginFacts.

(** ** A second run of the plugin *)

Section PluginTwice.

Context (resolveUri : string -> option string -> string)
        (sha256_hex : string -> string)
        (registry : gmap string ReactVersion)
        (JSON_parse : string -> option JSValue)
        (path_join : list string -> string)
        (dirname : string)
        (traceMappings : Sources -> SourceMapV3)
        (JSON_stringify : JSValue -> string).

Local Abbreviation plugin :=
  (rewireSourceMapsFromGeneratedAssetList resolveUri sha256_hex registry JSON_parse
     path_join dirname traceMappings JSON_stringify).
Local Abbreviation assets_loop :=
  (rewire_assets resolveUri sha256_hex registry JSON_parse path_join dirname traceMappings
     JSON_stringify).
Local Abbreviation call :=
  (rewrite_on resolveUri sha256_hex registry JSON_parse path_join dirname traceMappings).

(** A document of the interface none of whose sources has a resolved name
    that the pattern matches. *)
Definition settled (v : JSValue) : Prop :=
  exists m, asSourceMapV3 v = Some m /\
    Forall unmatched (resolvedSources (trace_map resolveUri m "")).

(** A file that holds such a document. *)
Definition settled_file (d : gmap string string) (file : string) : Prop :=
  exists text v, d !! file = Some text /\ JSON_parse text = Some v /\ settled v.

Lemma loadSourcemap_inv (d : gmap string string) (file : string) (v : JSValue) :
  loadSourcemap d JSON_parse file = Normal v ->
  exists text, d !! file = Some text /\ JSON_parse text = Some v.
Proof.
  unfold loadSourcemap. destruct (d !! file) as [text|]; [|done].
  destruct (JSON_parse text) as [v'|] eqn:Hp; [|done].
  destruct (isSourceMapV3 v'); [|done]. intros [= <-]. by exists text.
Qed.

Lemma settled_file_load (d : gmap string string) (file : string) :
  settled_file d file ->
  exists v, loadSourcemap d JSON_parse file = Normal v /\ settled v.
Proof.
  intros (text & v & Hd & Hp & Hs). exists v. split; [|done].
  rewrite (loadSourcemap_parsed _ _ _ _ _ Hd Hp).
  destruct Hs as (m & Hm & _). by rewrite (asSourceMapV3_valid v m Hm).
Qed.

Lemma rewire_assets_settled (fuel : nat) (l : list string)
    (options : ReactSourcemapsPluginOptions) (s : Machine) :
  Forall (fun file => endsWith file ".map" = true -> settled_file (disk s) file) l ->
  exists s', assets_loop (S fuel) l options s = Some (Normal (), s') /\ disk s' = disk s.
Proof.
  revert s. induction l as [|file l IH]; intros s Hall; [by exists s|].
  apply Forall_cons in Hall as [Hfile Hall].
  cbn [rewire_assets]. destruct (endsWith file ".map"); cbn [negb]; [|by apply IH].
  destruct (settled_file_load _ _ (Hfile eq_refl)) as (v & -> & m & Hm & Hun).
  destruct (rewrite_unmatched resolveUri sha256_hex registry (disk s) JSON_parse path_join
              dirname traceMappings fuel v m {| verbose := debug options |}
              {| reactVersions := []; console := shown s |} Hm Hun) as (w & Hcall & _).
  unfold rewrite_on. rewrite Hcall. cbn [rewroteSourcemap result_of length Nat.ltb Nat.leb negb].
  match goal with |- context [assets_loop _ _ _ ?x] => set (s2 := x) end.
  assert (disk s2 = disk s) as Hd by (unfold s2; by destruct (debug_on options)).
  destruct (IH s2) as (s' & Hrun & Hs'); [by rewrite Hd|].
  exists s'. split; [done|]. by rewrite Hs'.
Qed.

Section Contracts.

(** The composition library names, as the sources of the document it
    returns, leaves of the tree it is given, and gives that document no
    source root. *)
Hypothesis sources_are_leaves :
  forall tree, Forall (fun s => exists n, s = Some n /\ n ∈ leaf_names tree)
                 (sources (traceMappings tree)).
Hypothesis no_source_root : forall tree, sourceRoot (traceMappings tree) = None.

(** The resolver leaves the empty name and the names it has produced as
    they are. *)
Hypothesis resolve_empty : resolveUri "" (Some "") = "".
Hypothesis resolve_idempotent :
  forall x b, resolveUri (resolveUri x b) (Some "") = resolveUri x b.

(** A document of the composition library is read back as it was
    written. *)
Hypothesis parse_stringify :
  forall tree, JSON_parse (JSON_stringify (toJS (traceMappings tree))) =
               Some (toJS (traceMappings tree)).

Lemma rewire_assets_settles (fuel : nat) (l : list string)
    (options : ReactSourcemapsPluginOptions) (s s' : Machine) :
  assets_loop fuel l options s = Some (Normal (), s') ->
  (forall file, settled_file (disk s) file -> settled_file (disk s') file) /\
  Forall (fun file => endsWith file ".map" = true -> settled_file (disk s') file) l.
Proof.
  revert s. induction l as [|file l IH]; intros s Hrun.
  { simpl in Hrun. injection Hrun as <-. done. }
  simpl in Hrun. destruct (endsWith file ".map") eqn:Hf; simpl in Hrun.
  2:{ destruct (IH s Hrun) as [Hkeep Hall]. split; [done|].
      constructor; [by rewrite Hf|done]. }
  destruct (loadSourcemap (disk s) JSON_parse file) as [v|e] eqn:Hload; [|done].
  destruct (call fuel v options s) as [[[r|e] w]|] eqn:Hcall; [|done..].
  unfold rewrite_on in Hcall.
  apply rewrite_summary in Hcall as (m & tree & Hm & Hout & Hleaves & Hfalse).
  destruct (rewroteSourcemap r) eqn:Hr; simpl in Hrun.
  - match type of Hrun with assets_loop _ _ _ ?x = _ => set (s2 := x) in * end.
    assert (settled_file (disk s2) file) as Hnow.
    { exists (JSON_stringify (toJS (traceMappings tree))), (toJS (traceMappings tree)).
      split; [|split; [apply parse_stringify|]].
      - unfold s2. rewrite Hout. destruct (debug_on options); simpl; by rewrite lookup_insert_eq.
      - exists (traceMappings tree). split; [apply asSourceMapV3_toJS|].
        by apply output_unmatched. }
    assert (forall g, settled_file (disk s) g -> settled_file (disk s2) g) as Hstep.
    { intros g Hg. destruct (decide (file = g)) as [<-|Hne]; [done|].
      destruct Hg as (text & v' & Hd & Hrest). exists text, v'. split; [|done].
      unfold s2. destruct (debug_on options); simpl; by rewrite lookup_insert_ne. }
    destruct (IH s2 Hrun) as [Hkeep Hall]. split; [by auto|].
    constructor; [by auto|done].
  - match type of Hrun with assets_loop _ _ _ ?x = _ => set (s2 := x) in * end.
    assert (disk s2 = disk s) as Hd by (unfold s2; by destruct (debug_on options)).
    destruct (IH s2 Hrun) as [Hkeep Hall]. rewrite Hd in Hkeep. split; [done|].
    constructor; [|done]. intros _. apply Hkeep.
    destruct (loadSourcemap_inv _ _ _ Hload) as (text & Htext & Hparse).
    exists text, v. split; [done|]. split; [done|]. exists m. by auto.
Qed.

(** X17. Under the contracts above, and when the maps on disk before the
    run are documents of the interface, after a run that has returned
    every source map asset of the list loads from the disk as a document
    of the interface none of whose sources has a resolved name that the
    pattern matches. *)
Theorem listed_maps_settled (fuel : nat) (l : list string)
    (options : ReactSourcemapsPluginOptions) (s s' : Machine) (file : string) :
  interface_disk (disk s) JSON_parse ->
  plugin fuel l options s = Some (Normal (), s') ->
  file ∈ l -> endsWith file ".map" = true ->
  exists v m,
    loadSourcemap (disk s') JSON_parse file = Normal v /\
    asSourceMapV3 v = Some m /\
    Forall unmatched (resolvedSources (trace_map resolveUri m "")).
Proof.
  intros _ Hrun Hin Hf. destruct l as [|a l]; [by apply elem_of_nil in Hin|].
  rewrite plugin_nonempty in Hrun by done.
  apply rewire_assets_settles in Hrun as [_ Hall].
  pose proof (proj1 (Forall_forall _ _) Hall file Hin Hf) as Hfile.
  destruct (settled_file_load _ _ Hfile) as (v & Hload & m & Hm & Hun). by exists v, m.
Qed.

(** X18. Under the contracts above, a second run of the plugin on the
    disk that a first run has left returns too and changes no file,
    whatever the options of either. *)
Theorem second_run_writes_nothing (fuel fuel' : nat) (l : list string)
    (options options' : ReactSourcemapsPluginOptions) (s s1 : Machine) :
  plugin fuel l options s = Some (Normal (), s1) ->
  exists s2,
    plugin (S fuel') l options' s1 = Some (Normal (), s2) /\
    disk s2 = disk s1.
Proof.
  intros Hrun. destruct l as [|a l].
  { by eexists. }
  rewrite plugin_nonempty in Hrun by done. rewrite plugin_nonempty by done.
  apply rewire_assets_settles in Hrun as [_ Hall].
  by apply rewire_assets_settled.
Qed.

End Contracts.

End PluginTwice.

(** ** The walk on the documents of the scenarios *)

(** What the first call prints with [verbose] on. *)
Definition verbose_options : Options := {| verbose := Some true |}.

Definition verbose_world : World :=
  {| reactVersions := [Sample.react_dom_18_2_0];
     console :=
       [[LStr "Found react-dom.production.min.js,react-dom.production.min.js in file:";
         LCtx {| importer := ""; depth := 1; source := webpack_resolved |}];
        [LStr "Found matching version for react-dom.production.min.js:"; LStr "18.2.0"];
        [LStr "Skipping sourcemap webpack://_N_E/node_modules/react-dom/cjs/react-dom.production.js because it does not contain a sourcemap for remapping"]] |}.

(** X1 on the disk without the recorded map: the error is the one of
    [loadSourcemap]. *)
Lemma expected_sourcemap_check_never_fires_witness :
  Error "Cannot find /pkg/lib/../assets/react-dom/18.2.0/react-dom.production.min.js.map"
    <> Error ("Failed to load expected sourcemap for " +:+
              "react-dom.production.min.js version 18.2.0").
Proof.
  apply (expected_sourcemap_check_never_fires Sample.resolveUri Sample.sha256_hex
           Sample.hashesToSourcemapDescriptors Sample.fs_without Sample.JSON_parse
           Sample.path_join Sample.dirname Sample.traceMappings 2
           (toJS (webpack_bundle (Some Sample.minified))) default_options Sample.world0
           {| reactVersions := [Sample.react_dom_18_2_0]; console := [] |}).
  by vm_compute.
Defined.

(** X2 at the document of the scenarios. *)
Lemma reported_release_is_registered_witness :
  exists f contents,
    is_Some (regexp_exec SUPPORTED_PACKAGES f) /\
    at_index (sourcesContent (webpack_bundle (Some Sample.minified)))
      (filenameIndex Sample.resolveUri f (webpack_bundle (Some Sample.minified)))
      = Some contents /\
    contents <> "" /\
    Sample.hashesToSourcemapDescriptors !! Sample.sha256_hex contents
      = Some Sample.react_dom_18_2_0.
Proof.
  destruct (reported_release_is_registered Sample.resolveUri Sample.sha256_hex
              Sample.hashesToSourcemapDescriptors Sample.fs Sample.JSON_parse
              Sample.path_join Sample.dirname Sample.traceMappings 2
              (toJS (webpack_bundle (Some Sample.minified)))
              (webpack_bundle (Some Sample.minified)) default_options Sample.world0
              {| reactVersions := [Sample.react_dom_18_2_0]; console := [] |}
              (Normal first_result)) as [_ Hreported]; [by vm_compute..|].
  exact (Hreported first_result Sample.react_dom_18_2_0 eq_refl eq_refl).
Defined.

(** X3 at the document of the scenarios. *)
Lemma returned_releases_loaded_witness :
  Forall (fun versionEntry => exists sourcemap,
            loadSourcemap Sample.fs Sample.JSON_parse
              (recorded_map_path Sample.path_join Sample.dirname versionEntry)
              = Normal sourcemap /\
            isSourceMapV3 sourcemap = true)
    [Sample.react_dom_18_2_0].
Proof.
  apply (returned_releases_loaded Sample.resolveUri Sample.sha256_hex
           Sample.hashesToSourcemapDescriptors Sample.fs Sample.JSON_parse
           Sample.path_join Sample.dirname Sample.traceMappings 2
           (toJS (webpack_bundle (Some Sample.minified))) default_options Sample.world0
           {| reactVersions := [Sample.react_dom_18_2_0]; console := [] |} first_result).
  by vm_compute.
Defined.

(** X4 at the document of the scenarios. *)
Lemma quiet_without_verbose_witness :
  console {| reactVersions := [Sample.react_dom_18_2_0]; console := [] |}
    = console Sample.world0.
Proof.
  apply (quiet_without_verbose Sample.resolveUri Sample.sha256_hex
           Sample.hashesToSourcemapDescriptors Sample.fs Sample.JSON_parse
           Sample.path_join Sample.dirname Sample.traceMappings 2
           (toJS (webpack_bundle (Some Sample.minified))) default_options Sample.world0
           {| reactVersions := [Sample.react_dom_18_2_0]; console := [] |}
           (Normal first_result)).
  - by vm_compute.
  - by vm_compute.
Defined.

(** X5 at the document of the scenarios, with [verbose] on. *)
Lemma printed_lines_witness :
  exists logs,
    console verbose_world = (console Sample.world0 ++ logs)%list /\
    Forall walk_log logs /\
    (forall args t, args ∈ logs ->
       hd_error args <> Some (LStr "Loading sourcemap from: ") /\
       hd_error args <> Some (LStr ("Could not resolve sourcemaps for " +:+ t))).
Proof.
  apply (printed_lines Sample.resolveUri Sample.sha256_hex
           Sample.hashesToSourcemapDescriptors Sample.fs Sample.JSON_parse
           Sample.path_join Sample.dirname Sample.traceMappings 2
           (toJS (webpack_bundle (Some Sample.minified))) verbose_options Sample.world0
           verbose_world (Normal first_result)).
  by vm_compute.
Defined.

(** X6 at the document of the scenarios. *)
Lemma first_match_reported_witness :
  exists versionEntry,
    findMatchingReactDOMVersion Sample.resolveUri Sample.sha256_hex
      Sample.hashesToSourcemapDescriptors webpack_resolved
      (webpack_bundle (Some Sample.minified)) = Normal versionEntry /\
    reactVersion first_result = Some versionEntry /\
    rewroteSourcemap first_result = true.
Proof.
  apply (first_match_reported Sample.resolveUri Sample.sha256_hex
           Sample.hashesToSourcemapDescriptors Sample.fs Sample.JSON_parse
           Sample.path_join Sample.dirname Sample.traceMappings 2
           (toJS (webpack_bundle (Some Sample.minified)))
           (webpack_bundle (Some Sample.minified)) default_options Sample.world0
           {| reactVersions := [Sample.react_dom_18_2_0]; console := [] |} first_result
           [] [] webpack_resolved).
  - by vm_compute.
  - by vm_compute.
  - constructor.
  - vm_compute. by eexists.
  - by vm_compute.
Defined.

(** X7 at the two documents of the scenarios. *)
Lemma rewrote_iff_matching_witness :
  (rewroteSourcemap first_result = true <->
   Exists (fun f => is_Some (regexp_exec SUPPORTED_PACKAGES f))
     (resolvedSources (trace_map Sample.resolveUri (webpack_bundle (Some Sample.minified)) ""))) /\
  (rewroteSourcemap app_result = true <->
   Exists (fun f => is_Some (regexp_exec SUPPORTED_PACKAGES f))
     (resolvedSources (trace_map Sample.resolveUri app_bundle ""))).
Proof.
  split.
  - apply (rewrote_iff_matching Sample.resolveUri Sample.sha256_hex
             Sample.hashesToSourcemapDescriptors Sample.fs Sample.JSON_parse
             Sample.path_join Sample.dirname Sample.traceMappings 2
             (toJS (webpack_bundle (Some Sample.minified)))
             (webpack_bundle (Some Sample.minified)) default_options Sample.world0
             {| reactVersions := [Sample.react_dom_18_2_0]; console := [] |} first_result).
    + by vm_compute.
    + by vm_compute.
  - apply (rewrote_iff_matching Sample.resolveUri Sample.sha256_hex
             Sample.hashesToSourcemapDescriptors Sample.fs Sample.JSON_parse
             Sample.path_join Sample.dirname Sample.traceMappings 1
             (toJS app_bundle) app_bundle default_options Sample.world0
             Sample.world0 app_result).
    + by vm_compute.
    + by vm_compute.
Defined.



(** X10 at a base without a trailing slash. *)
Lemma resolve_base_is_directory_witness :
  resolve Sample.resolveUri "./index.js" (Some "dist")
    = resolve Sample.resolveUri "./index.js" (Some "dist/") /\
  resolve Sample.resolveUri "./index.js" (Some "dist")
    = Sample.resolveUri "./index.js" (Some "dist/").
Proof.
  apply (resolve_base_is_directory Sample.resolveUri "./index.js" "dist").
  - done.
  - by vm_compute.
Defined.

(** ** A build directory to run the plugin in

    The disk of the stand-in environment together with the output of a
    bundler: a script, its source map with the minified build as only
    source, and the source map of a script without React.  The
    serialization writes the names of the sources, every character after a
    [+] and every name closed by a [;], behind a [#]; the parser reads that
    form back, and the stand-ins for the files of the scenarios. *)
Module Build.

Fixpoint encode_name (name : string) : string :=
  match name with
  | EmptyString => ";"
  | String c rest => String "+" (String c (encode_name rest))
  end.

Fixpoint encode_names (names : list string) : string :=
  match names with
  | [] => ""
  | name :: rest => encode_name name +:+ encode_names rest
  end.

Fixpoint decode_names (text : string) (name : string) (names : list string)
  : option (list string) :=
  match text with
  | EmptyString => if String.eqb name "" then Some names else None
  | String c rest =>
      if Ascii.eqb c ";" then decode_names rest "" (names ++ [name])
      else
        match rest with
        | String d rest' =>
            if Ascii.eqb c "+" then decode_names rest' (name +:+ String d "") names
            else None
        | EmptyString => None
        end
  end.

Definition document (names : list string) : SourceMapV3 :=
  {| file := None; names := []; sourceRoot := None;
     sources := Some <$> names;
     sourcesContent := None;
     mappings := JString "" |}.

Definition JSON_stringify (v : JSValue) : string :=
  match asSourceMapV3 v with
  | Some m => String "#" (encode_names (default "" <$> sources m))
  | None => "null"
  end.

Definition JSON_parse (text : string) : option JSValue :=
  match text with
  | String c rest =>
      if Ascii.eqb c "#" then toJS ∘ document <$> decode_names rest "" []
      else if String.eqb text "<bundle>" then Some (toJS (webpack_bundle (Some Sample.minified)))
      else if String.eqb text "<app>" then Some (toJS app_bundle)
      else Sample.JSON_parse text
  | EmptyString => None
  end.

Definition disk0 : gmap string string :=
  <["dist/index.js" := "render()"]>
  (<["dist/index.js.map" := "<bundle>"]>
  (<["dist/app.js.map" := "<app>"]> Sample.fs)).

Definition machine0 : Machine := {| disk := disk0; shown := [] |}.

Definition assets : list string := ["dist/index.js"; "dist/index.js.map"; "dist/app.js.map"].

Definition plugin (fuel : nat) (generatedAssets : list string)
    (options : ReactSourcemapsPluginOptions) (s : Machine)
  : option (Completion unit * Machine) :=
  rewireSourceMapsFromGeneratedAssetList Sample.resolveUri Sample.sha256_hex
    Sample.hashesToSourcemapDescriptors JSON_parse Sample.path_join Sample.dirname
    Sample.traceMappings JSON_stringify fuel generatedAssets options s.

(** The disk after a run on [assets]. *)
Definition disk1 : gmap string string :=
  <["dist/index.js.map" := JSON_stringify (toJS (outputSourcemap first_result))]> disk0.

End Build.

Lemma string_app_nil_r (s : string) : s +:+ "" = s.
Proof.
  induction s as [|c s IH]; [done|].
  change (String c s +:+ "") with (String c (s +:+ "")). by rewrite IH.
Qed.

Lemma string_app_assoc (a b c : string) : (a +:+ b) +:+ c = a +:+ (b +:+ c).
Proof.
  induction a as [|x a IH]; [done|].
  change (String x ((a +:+ b) +:+ c) = String x (a +:+ (b +:+ c))). by rewrite IH.
Qed.

Lemma decode_encode_name (n t name : string) (names : list string) :
  Build.decode_names (Build.encode_name n +:+ t) name names =
  Build.decode_names t "" (names ++ [name +:+ n]).
Proof.
  revert name. induction n as [|c n IH]; intros name.
  - simpl. by rewrite string_app_nil_r.
  - change (Build.encode_name (String c n) +:+ t)
      with (String "+" (String c (Build.encode_name n +:+ t))).
    cbn [Build.decode_names]. change (Ascii.eqb "+" ";") with false.
    change (Ascii.eqb "+" "+") with true. cbv iota.
    rewrite IH. by rewrite string_app_assoc.
Qed.

Lemma decode_encode_names (l : list string) (t : string) (names : list string) :
  Build.decode_names (Build.encode_names l +:+ t) "" names =
  Build.decode_names t "" (names ++ l).
Proof.
  revert names. induction l as [|n l IH]; intros names.
  - by rewrite app_nil_r.
  - cbn [Build.encode_names]. rewrite string_app_assoc, decode_encode_name, IH.
    by rewrite <- app_assoc.
Qed.

Lemma build_parse_stringify (tree : Sources) :
  Build.JSON_parse (Build.JSON_stringify (toJS (Sample.traceMappings tree))) =
  Some (toJS (Sample.traceMappings tree)).
Proof.
  unfold Build.JSON_stringify. rewrite asSourceMapV3_toJS.
  unfold Build.JSON_parse. change (Ascii.eqb "#" "#") with true. cbv iota.
  cbn [sources Sample.traceMappings].
  rewrite <- list_fmap_compose.
  assert (forall l : list string, default "" ∘ Some <$> l = l) as Hid.
  { intros l. induction l as [|n l IH]; [done|]. rewrite fmap_cons. by f_equal. }
  rewrite Hid.
  rewrite <- (string_app_nil_r (Build.encode_names (leaf_names tree))).
  rewrite decode_encode_names. done.
Qed.

Lemma sample_sources_are_leaves (tree : Sources) :
  Forall (fun s => exists n, s = Some n /\ n ∈ leaf_names tree)
    (sources (Sample.traceMappings tree)).
Proof. simpl. apply Forall_fmap, Forall_forall. intros n Hin. by exists n. Qed.

(** ** The plugin on the build directory *)

Definition quiet : ReactSourcemapsPluginOptions := {| debug := None |}.

Definition loud : ReactSourcemapsPluginOptions := {| debug := Some true |}.

(** X12: the script and a style sheet make no difference. *)
Lemma only_map_assets_count_witness :
  Build.plugin 2 ["dist/index.js"; "dist/index.js.map"] loud Build.machine0 =
  Build.plugin 2 ["dist/index.js.map"; "dist/index.css"] loud Build.machine0.
Proof.
  apply (only_map_assets_count Sample.resolveUri Sample.sha256_hex
           Sample.hashesToSourcemapDescriptors Build.JSON_parse Sample.path_join
           Sample.dirname Sample.traceMappings Build.JSON_stringify 2
           ["dist/index.js"; "dist/index.js.map"] ["dist/index.js.map"; "dist/index.css"]
           loud Build.machine0).
  - done.
  - done.
  - by vm_compute.
Defined.

(** X13: the map of the bundle, then a map that is not on disk. *)
Lemma assets_in_sequence_witness :
  Build.plugin 2 (["dist/index.js.map"] ++ ["dist/missing.map"]) quiet Build.machine0 =
    match Build.plugin 2 ["dist/index.js.map"] quiet Build.machine0 with
    | Some (Normal _, s1) => Build.plugin 2 ["dist/missing.map"] quiet s1
    | other => other
    end.
Proof.
  apply (assets_in_sequence Sample.resolveUri Sample.sha256_hex
           Sample.hashesToSourcemapDescriptors Build.JSON_parse Sample.path_join
           Sample.dirname Sample.traceMappings Build.JSON_stringify 2
           ["dist/index.js.map"] ["dist/missing.map"] quiet Build.machine0).
  - done.
  - done.
Defined.

(** X14: the map of the bundle is the file that a run on the assets of
    the build changes. *)
Lemma writes_only_listed_maps_witness :
  "dist/index.js.map" ∈ Build.assets /\
  endsWith "dist/index.js.map" ".map" = true /\
  exists tree,
    Build.disk1 !! "dist/index.js.map" =
      Some (Build.JSON_stringify (toJS (Sample.traceMappings tree))).
Proof.
  apply (writes_only_listed_maps Sample.resolveUri Sample.sha256_hex
           Sample.hashesToSourcemapDescriptors Build.JSON_parse Sample.path_join
           Sample.dirname Sample.traceMappings Build.JSON_stringify 2
           Build.assets quiet Build.machine0 {| disk := Build.disk1; shown := [] |}
           (Normal ()) "dist/index.js.map").
  - by vm_compute.
  - by vm_compute.
Defined.

(** X15: the run on the assets of the build, without [debug]. *)
Lemma quiet_without_debug_witness :
  shown {| disk := Build.disk1; shown := [] |} = shown Build.machine0.
Proof.
  refine (proj1 (quiet_without_debug Sample.resolveUri Sample.sha256_hex
           Sample.hashesToSourcemapDescriptors Build.JSON_parse Sample.path_join
           Sample.dirname Sample.traceMappings Build.JSON_stringify 2
           Build.assets quiet Build.machine0 {| disk := Build.disk1; shown := [] |}
           (Normal ()) _ _) _).
  - by vm_compute.
  - by vm_compute.
  - done.
Defined.

(** X16: the script without React and its map. *)
Lemma no_react_no_write_witness :
  disk {| disk := Build.disk0;
          shown :=
            [[LStr "Skipping sourcemap src/app.js because it does not contain a sourcemap for remapping"];
             [LStr "ReactSourceMaps: ❌ No React version found in sourcemap, skipping";
              LStr "dist/app.js.map"]] |}
    = disk Build.machine0.
Proof.
  apply (no_react_no_write Sample.resolveUri Sample.sha256_hex
           Sample.hashesToSourcemapDescriptors Build.JSON_parse Sample.path_join
           Sample.dirname Sample.traceMappings Build.JSON_stringify 1
           ["dist/app.js"; "dist/app.js.map"] loud Build.machine0 _ (Normal ())).
  - repeat constructor; by vm_compute.
  - by vm_compute.
Defined.

(** The maps of the build directory are documents of the interface; the
    script does not parse. *)
Lemma build_disk_interface : interface_disk Build.disk0 Build.JSON_parse.
Proof.
  intros filePath sourcemap H. apply loadSourcemap_inv in H as (text & Hd & Hp).
  unfold Build.disk0, Sample.fs in Hd.
  repeat (apply lookup_insert_Some in Hd as [[_ <-]|[_ Hd]];
          [vm_compute in Hp; try discriminate Hp; injection Hp as <-; vm_compute; by eexists|]).
  apply lookup_singleton_Some in Hd as [_ <-].
  vm_compute in Hp. injection Hp as <-. vm_compute. by eexists.
Qed.

(** X17: the map of the bundle after a run on the assets of the build. *)
Lemma listed_maps_settled_witness :
  exists v m,
    loadSourcemap Build.disk1 Build.JSON_parse "dist/index.js.map" = Normal v /\
    asSourceMapV3 v = Some m /\
    Forall unmatched (resolvedSources (trace_map Sample.resolveUri m "")).
Proof.
  apply (listed_maps_settled Sample.resolveUri Sample.sha256_hex
           Sample.hashesToSourcemapDescriptors Build.JSON_parse Sample.path_join
           Sample.dirname Sample.traceMappings Build.JSON_stringify
           sample_sources_are_leaves (fun _ => eq_refl) eq_refl
           sample_resolveUri_idempotent build_parse_stringify 2
           Build.assets quiet Build.machine0 {| disk := Build.disk1; shown := [] |}
           "dist/index.js.map").
  - exact build_disk_interface.
  - by vm_compute.
  - by repeat constructor.
  - by vm_compute.
Defined.

(** X18: a second run on the assets of the build, with [debug] on. *)
Lemma second_run_writes_nothing_witness :
  exists s2,
    Build.plugin 1 Build.assets loud {| disk := Build.disk1; shown := [] |} =
      Some (Normal (), s2) /\
    disk s2 = Build.disk1.
Proof.
  apply (second_run_writes_nothing Sample.resolveUri Sample.sha256_hex
           Sample.hashesToSourcemapDescriptors Build.JSON_parse Sample.path_join
           Sample.dirname Sample.traceMappings Build.JSON_stringify
           sample_sources_are_leaves (fun _ => eq_refl) eq_refl
           sample_resolveUri_idempotent build_parse_stringify 2 0
           Build.assets quiet loud Build.machine0 {| disk := Build.disk1; shown := [] |}).
  by vm_compute.
Defined.
